(** * time-fun-scraper: the extraction pipeline of [src/index.ts]

    A shallow embedding of the three stages of [src/index.ts] (category
    listing, per-creator detail extraction, report synthesis) together with
    the properties of the specification that were checked against it.

    Modelling conventions.
    - JavaScript strings are [string]s of 8-bit characters; case mapping and
      the [\s] character class are the ASCII ones.
    - A field of a record is the rational that the number denotes ([Q]); a
      field that is not finite ([NaN], [Infinity]) is [None], which is also
      what [JSON.stringify] turns it into ([null]).  [JS.parseInt] and
      [JS.parseFloat] give the mathematical value of the literal they read,
      which is the number of the program when that value is a double (every
      integer below [2 ^ 53] is one).
    - The running sums of the report are sums of IEEE-754 doubles:
      [JS.double] rounds a rational to the nearest double, ties to even, and
      overflows to an infinity; [JS.plus] is [+] on doubles.
    - Numbers and dates are written as the [en-US] locale writes them.
    - The browser engine and the wall clock are an oracle ([Engine]) indexed
      by a call counter; the file system is part of the threaded [World].
      A file of a directory holds the records that [JSON.parse] reads from
      it; a file that is no JSON array of records, and a file-system call
      that is refused for another reason than a directory that does not
      exist, are outside the model.  [browser.close()] succeeds. *)

From Stdlib Require Import ZArith QArith Qabs Qround Lia List Bool Ascii String.
From Stdlib Require Import Sorting.Permutation Sorting.Sorted.
From Stdlib Require Import DecimalString DecimalPos.
Import ListNotations.

Open Scope string_scope.

(** ** The JavaScript primitives the program calls *)

Module JS.

Definition code (c : ascii) : nat := nat_of_ascii c.

(** The ASCII part of the regular-expression class [\s]. *)
Definition isSpace (c : ascii) : bool :=
  let n := code c in
  ((9 <=? n) && (n <=? 13))%nat || (n =? 32)%nat.

Definition isUpper (c : ascii) : bool :=
  let n := code c in ((65 <=? n) && (n <=? 90))%nat.

Definition isLower (c : ascii) : bool :=
  let n := code c in ((97 <=? n) && (n <=? 122))%nat.

Definition toLowerChar (c : ascii) : ascii :=
  if isUpper c then ascii_of_nat (code c + 32) else c.

Definition toUpperChar (c : ascii) : ascii :=
  if isLower c then ascii_of_nat (code c - 32) else c.

(** [s.toLowerCase()] *)
Fixpoint toLowerCase (s : string) : string :=
  match s with
  | EmptyString => EmptyString
  | String c r => String (toLowerChar c) (toLowerCase r)
  end.

(** [s.replace(/\s+/g, rep)]: every maximal run of white space becomes
    one [rep].  [inrun] tells that the previous character was white space. *)
Fixpoint replaceSpaceRuns (rep : string) (inrun : bool) (s : string) : string :=
  match s with
  | EmptyString => EmptyString
  | String c r =>
      if isSpace c
      then (if inrun then replaceSpaceRuns rep true r
            else rep ++ replaceSpaceRuns rep true r)
      else String c (replaceSpaceRuns rep false r)
  end.

(** [s.replace(/c/g, rep)] for a single literal character [c]. *)
Fixpoint replaceAllChar (c : ascii) (rep : string) (s : string) : string :=
  match s with
  | EmptyString => EmptyString
  | String d r =>
      if Ascii.eqb c d then rep ++ replaceAllChar c rep r
      else String d (replaceAllChar c rep r)
  end.

Fixpoint drop (n : nat) (s : string) : string :=
  match n, s with
  | O, _ => s
  | S k, EmptyString => EmptyString
  | S k, String _ r => drop k r
  end.

(** [s.replace(pat, rep)] with a string pattern: only the first
    occurrence of [pat] is replaced. *)
Fixpoint replaceFirst (pat rep : string) (s : string) : string :=
  if prefix pat s then rep ++ drop (length pat) s
  else match s with
       | EmptyString => EmptyString
       | String c r => String c (replaceFirst pat rep r)
       end.

(** [s.endsWith(suf)] *)
Definition endsWith (suf s : string) : bool :=
  (length suf <=? length s)%nat
  && String.eqb (drop (length s - length suf) s) suf.

(** [s.charAt(0).toUpperCase() + s.slice(1)] *)
Definition capitalizeFirst (s : string) : string :=
  match s with
  | EmptyString => EmptyString
  | String c r => String (toUpperChar c) r
  end.

(** [s.repeat(n)] *)
Fixpoint repeat (s : string) (n : nat) : string :=
  match n with
  | O => EmptyString
  | S k => s ++ repeat s k
  end.

Fixpoint trimStart (s : string) : string :=
  match s with
  | EmptyString => EmptyString
  | String c r => if isSpace c then trimStart r else s
  end.

Fixpoint rev (s : string) : string :=
  match s with
  | EmptyString => EmptyString
  | String c r => rev r ++ String c EmptyString
  end.

(** [s.trim()] *)
Definition trim (s : string) : string :=
  rev (trimStart (rev (trimStart s))).

(** [a || b] on strings: the empty string is falsy. *)
Definition orString (a : option string) (b : string) : string :=
  match a with
  | Some (String c r) => String c r
  | _ => b
  end.

(** [a || 0] on numbers: [undefined], [null] and [0] are falsy. *)
Definition orZero (a : option Q) : Q :=
  match a with
  | Some q => if Qeq_bool q 0 then 0%Q else q
  | None => 0%Q
  end.

(** *** Doubles

    A finite double is carried by the rational it denotes.  The sign of a
    zero is not kept. *)
Inductive number :=
| Finite (q : Q)
| Infinite (negative : bool)
| NaN.

(** The integer nearest to [n / d] (for [0 <= n] and [0 < d]), ties to
    even. *)
Definition roundHalfEven (n d : Z) : Z :=
  let q := (n / d)%Z in
  match (2 * (n mod d) ?= d)%Z with
  | Lt => q
  | Gt => (q + 1)%Z
  | Eq => if Z.even q then q else (q + 1)%Z
  end.

(** [floor (log2 (n / d))] for [0 < n] and [0 < d]. *)
Definition ilog2 (n d : Z) : Z :=
  let k := (Z.log2 n - Z.log2 d)%Z in
  if (n * 2 ^ Z.max 0 (- k) <? d * 2 ^ Z.max 0 k)%Z then (k - 1)%Z else k.

(** [m * 2 ^ e] with its sign. *)
Definition scale2 (neg : bool) (m e : Z) : Q :=
  let v := if neg then (- m)%Z else m in
  if (0 <=? e)%Z then inject_Z (v * 2 ^ e)
  else Qmake v (Z.to_pos (2 ^ (- e))).

(** The double nearest to [q]: a significand of 53 bits, an exponent that
    is at least [-1074] (below it the significand gets shorter), ties to
    even, and an infinity from [2 ^ 1024] on. *)
Definition double (q : Q) : number :=
  let r := Qred q in
  let n := Z.abs (Qnum r) in
  let d := Zpos (Qden r) in
  let neg := (Qnum r <? 0)%Z in
  if (n =? 0)%Z then Finite 0
  else
    let e := Z.max (ilog2 n d - 52) (-1074) in
    let m := roundHalfEven (n * 2 ^ Z.max 0 (- e)) (d * 2 ^ Z.max 0 e) in
    if ((0 <=? e) && (2 ^ 1024 <=? m * 2 ^ e))%Z then Infinite neg
    else Finite (scale2 neg m e).

(** [a + b] on numbers. *)
Definition plus (a b : number) : number :=
  match a, b with
  | Finite x, Finite y => double (x + y)
  | NaN, _ | _, NaN => NaN
  | Infinite s, Infinite s' => if Bool.eqb s s' then Infinite s else NaN
  | Infinite s, Finite _ | Finite _, Infinite s => Infinite s
  end.

(** *** Reading numbers *)

Definition digit (c : ascii) : option Z :=
  let n := code c in
  if ((48 <=? n) && (n <=? 57))%nat then Some (Z.of_nat (n - 48)) else None.

(** The longest prefix of decimal digits: its value on top of [acc], how
    many digits were read, and the rest of the string. *)
Fixpoint digits (s : string) (acc : Z) (cnt : nat) : Z * nat * string :=
  match s with
  | EmptyString => (acc, cnt, s)
  | String c r =>
      match digit c with
      | Some d => digits r (10 * acc + d)%Z (S cnt)
      | None => (acc, cnt, s)
      end
  end.

(** An optional sign. *)
Definition sign (s : string) : bool * string :=
  match s with
  | String "-" r => (true, r)
  | String "+" r => (false, r)
  | _ => (false, s)
  end.

(** [parseInt(s, 10)]: the mathematical value of the digits read; [None]
    is [NaN]. *)
Definition parseInt (s : string) : option Q :=
  let '(neg, r) := sign (trimStart s) in
  let '(v, cnt, _) := digits r 0%Z 0%nat in
  match cnt with
  | O => None
  | _ => Some (inject_Z (if neg then - v else v))
  end.

(** The exponent part of a decimal literal, [0] when there is none. *)
Definition exponent (s : string) : Z :=
  match s with
  | String c r =>
      if (Ascii.eqb c "e" || Ascii.eqb c "E")%bool then
        let '(neg, r') := sign r in
        let '(v, cnt, _) := digits r' 0%Z 0%nat in
        match cnt with
        | O => 0%Z
        | _ => if neg then (- v)%Z else v
        end
      else 0%Z
  | EmptyString => 0%Z
  end.

Definition scale10 (m : Z) (e : Z) : Q :=
  if (0 <=? e)%Z then inject_Z (m * 10 ^ e)
  else Qmake m (Z.to_pos (10 ^ (- e))).

(** [parseFloat(s)]: the mathematical value of the longest prefix of [s]
    (after leading white space) that is a decimal literal; [None] when there
    is none ([NaN]) or when the literal is [Infinity]. *)
Definition parseFloat (s : string) : option Q :=
  let '(neg, r) := sign (trimStart s) in
  let '(ip, icnt, r1) := digits r 0%Z 0%nat in
  let '(m, fcnt, r2) :=
    match r1 with
    | String "." f =>
        let '(m, fcnt, r2) := digits f ip 0%nat in
        match icnt, fcnt with
        | O, O => (ip, O, r1)
        | _, _ => (m, fcnt, r2)
        end
    | _ => (ip, O, r1)
    end in
  match icnt, fcnt with
  | O, O => None
  | _, _ =>
      let q := scale10 m (exponent r2 - Z.of_nat fcnt) in
      Some (if neg then (- q)%Q else q)
  end.

(** *** Writing numbers *)

(** The decimal digits of a non-negative integer. *)
Definition decimal (z : Z) : string :=
  NilEmpty.string_of_uint (N.to_uint (Z.to_N z)).

(** The integer nearest to [|q| * k], ties away from zero. *)
Definition roundScaled (q : Q) (k : Z) : Z :=
  ((2 * Z.abs (Qnum q) * k + Zpos (Qden q)) / (2 * Zpos (Qden q)))%Z.

Definition minus (q : Q) : string :=
  if (Qnum q <? 0)%Z then "-" else "".

Definition padStart (w : nat) (s : string) : string :=
  repeat "0" (w - length s) ++ s.

(** A comma before every group of three digits, counted from the right. *)
Fixpoint group (s : string) : string :=
  match s with
  | EmptyString => EmptyString
  | String c r =>
      let n := length r in
      String c (if ((0 <? n) && (n mod 3 =? 0))%nat
                then "," ++ group r else group r)
  end.

Fixpoint dropZeros (s : string) : string :=
  match s with
  | String "0" r => dropZeros r
  | _ => s
  end.

Definition stripTrailingZeros (s : string) : string :=
  rev (dropZeros (rev s)).

(** [x.toLocaleString()] in the [en-US] locale: grouped integer part, at
    most three fraction digits. *)
Definition toLocaleString (q : Q) : string :=
  let n := roundScaled q 1000 in
  let f := (n mod 1000)%Z in
  minus q ++ group (decimal (n / 1000))
    ++ (if (f =? 0)%Z then ""
        else "." ++ stripTrailingZeros (padStart 3 (decimal f))).

(** [x.toLocaleString()] of a number that need not be finite. *)
Definition numberToLocaleString (x : number) : string :=
  match x with
  | Finite q => toLocaleString q
  | Infinite neg => (if neg then "-" else "") ++ "∞"
  | NaN => "NaN"
  end.

(** [x.toFixed(2)] (for [|x| < 1e21]). *)
Definition toFixed2 (q : Q) : string :=
  let n := roundScaled q 100 in
  minus q ++ decimal (n / 100) ++ "." ++ padStart 2 (decimal (n mod 100)).

(** A counter interpolated in a template literal. *)
Definition natToString (n : nat) : string := decimal (Z.of_nat n).

(** *** [Array.prototype.sort]

    The comparator returns a number; [sort] is stable (ECMAScript 2019),
    so for a consistent comparator its result is the one of a stable
    insertion: an element goes in front of the first one that it does not
    have to follow. *)
Section Sort.
Context {A : Type}.
Variable compareFn : A -> A -> Q.

Fixpoint insert (x : A) (l : list A) : list A :=
  match l with
  | [] => [x]
  | y :: r =>
      if Qle_bool (compareFn x y) 0 then x :: l else y :: insert x r
  end.

Definition sort (l : list A) : list A := fold_right insert [] l.
End Sort.

(** *** [Map.prototype.set] on an insertion-ordered map *)
Fixpoint mapSet {V : Type} (k : string) (v : V) (m : list (string * V))
  : list (string * V) :=
  match m with
  | [] => [(k, v)]
  | (k', v') :: r =>
      if String.eqb k k' then (k, v) :: r else (k', v') :: mapSet k v r
  end.

End JS.

Definition nl : string := String (ascii_of_nat 10) EmptyString.

(** ** The records of [src/index.ts] *)

Record Creator := mkCreator {
  name : string;
  url : string
}.

(** [Creator & { minutesPurchased?, pricePerMinute?, marketCap? }]; an
    optional field is [None] when it is missing or [null]. *)
Record CreatorDetails := mkDetails {
  creator : Creator;
  minutesPurchased : option Q;
  pricePerMinute : option Q;
  marketCap : option Q
}.

Record FormattedCreatorDetails := mkFormatted {
  category : string;
  creators : list CreatorDetails
}.

(** ** Report synthesis ([generateReadableReport]) *)

Module Report.

(** The running counters [totalCreators] and [totalMarketCap]. *)
Record Totals := mkTotals {
  totalCreators : nat;
  totalMarketCap : JS.number
}.

(** The display title of a file of [creators-details/]. *)
Definition title (file : string) : string :=
  JS.capitalizeFirst
    (JS.replaceAllChar "-" " " (JS.replaceFirst ".json" "" file)).

(** Reading the directory: one entry per [.json] file, in listing order. *)
Fixpoint readAll (files : list (string * list CreatorDetails))
  : list FormattedCreatorDetails :=
  match files with
  | [] => []
  | (file, content) :: r =>
      if JS.endsWith ".json" file
      then mkFormatted (title file) content :: readAll r
      else readAll r
  end.

(** [totalMarketCap += creator.marketCap || 0] *)
Definition addCap (m : JS.number) (c : CreatorDetails) : JS.number :=
  JS.plus m (JS.double (JS.orZero (marketCap c))).

(** First pass: the totals over all categories. *)
Definition firstPassStep (t : Totals) (d : FormattedCreatorDetails) : Totals :=
  mkTotals (totalCreators t + List.length (creators d))
           (fold_left addCap (creators d) (totalMarketCap t)).

Definition firstPass (allData : list FormattedCreatorDetails) : Totals :=
  fold_left firstPassStep allData (mkTotals 0 (JS.Finite 0)).

Definition summary (t : Totals) : string :=
  "Summary" ++ nl ++ "=======" ++ nl
  ++ "Total Creators: " ++ JS.natToString (totalCreators t) ++ nl
  ++ "Total Market Cap: $" ++ JS.numberToLocaleString (totalMarketCap t)
  ++ nl.

(** The comparator of the per-category sort.  The difference of two
    doubles has the sign of their exact difference, which is all that the
    sort looks at. *)
Definition byMarketCapDesc (a b : CreatorDetails) : Q :=
  (JS.orZero (marketCap b) - JS.orZero (marketCap a))%Q.

Definition sortedCreators (l : list CreatorDetails) : list CreatorDetails :=
  JS.sort byMarketCapDesc l.

Definition minutesLine (c : CreatorDetails) : string :=
  "Minutes Purchased: "
  ++ JS.orString (option_map JS.toLocaleString (minutesPurchased c)) "N/A"
  ++ nl.

Definition priceLine (c : CreatorDetails) : string :=
  "Price per Minute: $"
  ++ JS.orString (option_map JS.toFixed2 (pricePerMinute c)) "N/A" ++ nl.

Definition marketCapLine (c : CreatorDetails) : string :=
  "Market Cap: $"
  ++ JS.orString (option_map JS.toLocaleString (marketCap c)) "N/A" ++ nl.

(** The block of one creator. *)
Definition block (c : CreatorDetails) : string :=
  "Creator: " ++ name (creator c) ++ nl
  ++ "URL: " ++ url (creator c) ++ nl
  ++ minutesLine c ++ priceLine c ++ marketCapLine c
  ++ JS.repeat "-" 50 ++ nl.

(** The state of the second pass: the text so far and the counters. *)
Definition creatorStep (st : string * Totals) (c : CreatorDetails)
  : string * Totals :=
  (fst st ++ block c,
   mkTotals (S (totalCreators (snd st))) (addCap (totalMarketCap (snd st)) c)).

Definition header (d : FormattedCreatorDetails) : string :=
  nl ++ category d ++ nl
  ++ JS.repeat "=" (String.length (category d)) ++ nl ++ nl.

Definition categoryStep (st : string * Totals) (d : FormattedCreatorDetails)
  : string * Totals :=
  fold_left creatorStep (sortedCreators (creators d))
            (fst st ++ header d, snd st).

Definition preamble (now : string) : string :=
  "Time.fun Creators Report" ++ nl ++ "Generated on: " ++ now ++ nl ++ nl.

Definition leading (allData : list FormattedCreatorDetails) : Totals :=
  firstPass allData.

(** The text and the counters after the second pass. *)
Definition secondPass (now : string) (allData : list FormattedCreatorDetails)
  : string * Totals :=
  fold_left categoryStep allData
    (preamble now ++ summary (leading allData) ++ nl
       ++ JS.repeat "=" 50 ++ nl ++ nl,
     leading allData).

Definition trailing (now : string) (allData : list FormattedCreatorDetails)
  : Totals :=
  snd (secondPass now allData).

(** The text written to [creator-report.txt]; [now] is
    [new Date().toLocaleString()]. *)
Definition render (now : string) (allData : list FormattedCreatorDetails)
  : string :=
  let st := secondPass now allData in
  fst st ++ nl ++ summary (snd st).

End Report.

(** ** The world the pipeline runs in *)

(** A directory: the names of its files as [readdir] lists them, in that
    order, each with the records that [JSON.parse] reads from the file.
    Names are compared as byte strings. *)
Definition Dir : Type := list (string * list CreatorDetails).

(** Sessions of the browser engine, as they are opened and closed. *)
Inductive Event :=
| Launch (browser : nat)
| Close (browser : nat).

Record World := mkWorld {
  dirs : string -> option Dir;      (* directories below the working directory *)
  reportFile : option string;       (* creator-report.txt *)
  sessions : list Event;            (* oldest first *)
  launched : nat;                   (* sessions opened so far *)
  ticks : nat                       (* calls answered by the outside world *)
}.

(** What a text search for a label finds: no label node, or the label with
    the text of the first [p] of its next sibling (if any). *)
Inductive Probe :=
| Absent
| Present (text : option string).

Record DetailPage := mkDetailPage {
  minutesProbe : Probe;
  priceProbe : Probe;
  marketCapProbe : Probe
}.

(** An anchor of the grid: the text of its [h3], if any, and its [href]. *)
Record Anchor := mkAnchor {
  heading : option string;
  href : string
}.

(** The visit of a category page: [page.goto], then
    [page.waitForSelector(".grid")], then [evaluate] on the handle. *)
Inductive Grid :=
| GotoRejects
| WaitRejects                          (* the wait times out *)
| NoHandle                             (* the wait resolves to [null] *)
| Handle (anchors : option (list Anchor)). (* [None]: [evaluate] rejects *)

(** The visit of a creator page: [page.goto], then [page.evaluate]. *)
Inductive EntityPage :=
| NavigationRejects
| EvaluateRejects
| Rendered (p : DetailPage).

(** The outside world: what the engine and the clock answer to the call
    number [n]. *)
Record Engine := mkEngine {
  launch : nat -> bool;
  newPage : nat -> bool;
  categoryPage : nat -> Z -> Grid;
  creatorPage : nat -> string -> EntityPage;
  clock : nat -> string
}.

Inductive Error := EngineError | FileSystemError.

Inductive Result (A : Type) :=
| Ok (a : A)
| Throw (e : Error).
Arguments Ok {A} a.
Arguments Throw {A} e.

(** Asynchronous functions that may reject, over the world. *)
Definition M (A : Type) : Type := World -> Result A * World.

Definition ret {A} (a : A) : M A := fun w => (Ok a, w).

Definition throw {A} (e : Error) : M A := fun w => (Throw e, w).

Definition bind {A B} (m : M A) (k : A -> M B) : M B :=
  fun w =>
    match m w with
    | (Ok a, w') => k a w'
    | (Throw e, w') => (Throw e, w')
    end.

Notation "x <- m ;; k" := (bind m (fun x => k))
  (at level 61, m at next level, right associativity).
Notation "m ;;; k" := (bind m (fun _ => k))
  (at level 61, right associativity).

(** [try { body } catch (err) { handler(err) }] *)
Definition tryCatch {A} (body : M A) (handler : Error -> M A) : M A :=
  fun w =>
    match body w with
    | (Ok a, w') => (Ok a, w')
    | (Throw e, w') => handler e w'
    end.

(** [try { body } finally { fin }] *)
Definition tryFinally {A} (body : M A) (fin : M unit) : M A :=
  fun w =>
    let (r, w1) := body w in
    match fin w1 with
    | (Ok _, w2) => (r, w2)
    | (Throw e, w2) => (Throw e, w2)
    end.

(** The number of the next call to the outside world. *)
Definition tick : M nat :=
  fun w => (Ok (ticks w),
            mkWorld (dirs w) (reportFile w) (sessions w) (launched w)
                    (S (ticks w))).

Definition record (e : Event) (w : World) : World :=
  mkWorld (dirs w) (reportFile w) (sessions w ++ [e])%list
          (match e with Launch _ => S (launched w) | Close _ => launched w end)
          (ticks w).

(** [puppeteer.launch(...)] *)
Definition launchBrowser (E : Engine) : M nat :=
  t <- tick ;;
  if launch E t
  then fun w => (Ok (launched w), record (Launch (launched w)) w)
  else throw EngineError.

(** [browser.newPage()] *)
Definition openPage (E : Engine) : M unit :=
  t <- tick ;;
  if newPage E t then ret tt else throw EngineError.

(** [browser.close()] *)
Definition closeBrowser (browser : nat) : M unit :=
  fun w => (Ok tt, record (Close browser) w).

Definition initializeBrowser (E : Engine) : M nat :=
  browser <- launchBrowser E ;;
  openPage E ;;;
  ret browser.

(** [let browser = null;
     try { x = pre; browser = await initializeBrowser(); body }
     catch (err) { throw err }
     finally { if (browser) await browser.close() }]:
    [browser] is still [null] in the [finally] exactly when [pre] or
    [initializeBrowser] rejected. *)
Definition withBrowser {A B} (E : Engine) (pre : M B) (body : B -> M A) : M A :=
  tryCatch
    (fun w =>
       match pre w with
       | (Throw e, w1) => (Throw e, w1)
       | (Ok x, w1) =>
           match initializeBrowser E w1 with
           | (Throw e, w2) => (Throw e, w2)
           | (Ok browser, w2) => tryFinally (body x) (closeBrowser browser) w2
           end
       end)
    (fun err => throw err).

(** ** The partition store *)

Definition stub (c : Creator) : CreatorDetails := mkDetails c None None None.

(** The file a category is stored in. *)
Definition slug (categoryName : string) : string :=
  JS.replaceSpaceRuns "-" false (JS.toLowerCase categoryName).

Definition fileName (categoryName : string) : string :=
  slug categoryName ++ ".json".

(** [fs.mkdir(dir, { recursive: true })] then [fs.writeFile]: the content
    of a file that exists is replaced, and the file keeps its place in the
    listing; a file that is new is put last (where the file system lists a
    new file is its own choice). *)
Definition writeFile (directoryName file : string)
           (content : list CreatorDetails) (w : World) : World :=
  let old := match dirs w directoryName with Some d => d | None => [] end in
  mkWorld (fun d => if String.eqb d directoryName
                    then Some (JS.mapSet file content old) else dirs w d)
          (reportFile w) (sessions w) (launched w) (ticks w).

(** The two file-system calls return: the directories and the labels of
    the program make a path that can be written.  A call that is refused (a
    label with a [/], a disk that is full) is outside the model. *)
Definition saveCreatorsByCategory (categoryName directoryName : string)
           (creators : list CreatorDetails) : M unit :=
  fun w =>
    (Ok tt, writeFile directoryName (fileName categoryName) creators w).

(** The loop of [readCreatorFiles] over the listing, filling [creatorMap]. *)
Fixpoint collect (files : Dir) (creatorMap : Dir) : Dir :=
  match files with
  | [] => creatorMap
  | (file, content) :: r =>
      if JS.endsWith ".json" file
      then collect r (JS.mapSet (JS.replaceFirst ".json" "" file) content
                                creatorMap)
      else collect r creatorMap
  end.

(** [readdir] rejects when [creators/] does not exist.  Every [.json] file
    is taken to hold a JSON array of records; a file on which [JSON.parse]
    throws is outside the model. *)
Definition readCreatorFiles : M Dir :=
  fun w =>
    match dirs w "creators" with
    | None => (Throw FileSystemError, w)
    | Some files => (Ok (collect files []), w)
    end.

(** ** Listing ([scrapeCreatorCount]) *)

Definition categories : list (string * Z) :=
  [ ("Founders", 1%Z); ("Influencers", 2%Z); ("Personalities", 3%Z);
    ("Investors", 4%Z); ("Developers", 5%Z); ("Time.fun Team", 8%Z);
    ("Data Analysis", 9%Z); ("Trading Analysis", 10%Z) ].

Definition creatorOfAnchor (link : Anchor) : Creator :=
  mkCreator (JS.orString (option_map JS.trim (heading link)) "Unknown Creator")
            (href link).

(** One category page: the creators of its grid. *)
Definition listCreators (E : Engine) (remoteId : Z) : M (list Creator) :=
  t <- tick ;;
  match categoryPage E t remoteId with
  | GotoRejects => throw EngineError
  | WaitRejects => throw EngineError
  | NoHandle => ret []
  | Handle None => throw EngineError
  | Handle (Some links) => ret (map creatorOfAnchor links)
  end.

Fixpoint scrapeCategories (E : Engine) (cs : list (string * Z))
         (totalCreators : nat) : M nat :=
  match cs with
  | [] => ret totalCreators
  | (label, remoteId) :: r =>
      creators <- listCreators E remoteId ;;
      saveCreatorsByCategory label "creators" (map stub creators) ;;;
      scrapeCategories E r (totalCreators + List.length creators)
  end.

Definition scrapeCreatorCount (E : Engine) : M nat :=
  scrapeCategories E categories 0.

(** ** Detail extraction ([scrapeCreatorDetails], [scrapeAllCreatorDetails]) *)

(** [element ? parse(text || "0") : 0] *)
Definition readProbe (parse : string -> option Q)
           (clean : string -> string) (p : Probe) : option Q :=
  match p with
  | Absent => Some 0%Q
  | Present text => parse (JS.orString (option_map clean text) "0")
  end.

Definition cleanPrice (s : string) : string := JS.replaceFirst "$" "" s.

Definition cleanMarketCap (s : string) : string :=
  JS.replaceFirst "," "" (JS.replaceFirst "$" "" s).

Definition detailsOfPage (p : DetailPage) : option Q * option Q * option Q :=
  (readProbe JS.parseInt (fun s => s) (minutesProbe p),
   readProbe JS.parseFloat cleanPrice (priceProbe p),
   readProbe JS.parseFloat cleanMarketCap (marketCapProbe p)).

(** [{ ...creator, ...details }] *)
Definition enrich (c : CreatorDetails) (p : DetailPage) : CreatorDetails :=
  let '(minutes, price, cap) := detailsOfPage p in
  mkDetails (creator c) minutes price cap.

Definition scrapeCreatorDetails (E : Engine) (c : CreatorDetails)
  : M CreatorDetails :=
  t <- tick ;;
  match creatorPage E t (url (creator c)) with
  | NavigationRejects => throw EngineError
  | EvaluateRejects => throw EngineError
  | Rendered p => ret (enrich c p)
  end.

(** The loop over the creators of one category. *)
Fixpoint scrapeCreators (E : Engine) (creators : list CreatorDetails)
         (detailedCreators : list CreatorDetails) : M (list CreatorDetails) :=
  match creators with
  | [] => ret detailedCreators
  | c :: r =>
      pushed <- tryCatch
                  (details <- scrapeCreatorDetails E c ;;
                   ret (detailedCreators ++ [details])%list)
                  (fun _ => ret detailedCreators) ;;
      scrapeCreators E r pushed
  end.

(** The loop over [creatorMap]. *)
Fixpoint scrapePartitions (E : Engine) (creatorMap : Dir) : M unit :=
  match creatorMap with
  | [] => ret tt
  | (cat, creators) :: r =>
      detailedCreators <- scrapeCreators E creators [] ;;
      saveCreatorsByCategory cat "creators-details" detailedCreators ;;;
      scrapePartitions E r
  end.

Definition scrapeAllCreatorDetails (E : Engine) : M unit :=
  withBrowser E readCreatorFiles
    (fun creatorMap => openPage E ;;; scrapePartitions E creatorMap).

(** ** The report stage and the driver *)

Definition writeReport (text : string) (w : World) : World :=
  mkWorld (dirs w) (Some text) (sessions w) (launched w) (ticks w).

(** The stage rejects when [creators-details/] does not exist; its files
    are read as [readCreatorFiles] reads those of [creators/]. *)
Definition generateReadableReport (E : Engine) : M unit :=
  tryCatch
    (fun w =>
       match dirs w "creators-details" with
       | None => (Throw FileSystemError, w)
       | Some files =>
           (now <- tick ;;
            fun w' =>
              (Ok tt,
               writeReport (Report.render (clock E now) (Report.readAll files))
                           w')) w
       end)
    (fun err => throw err).

Record ScrapingResult := mkResult {
  resultCreators : nat;
  timestamp : string
}.

Definition main (E : Engine) : M ScrapingResult :=
  withBrowser E (ret tt)
    (fun _ =>
       openPage E ;;;
       totalCreators <- scrapeCreatorCount E ;;
       scrapeAllCreatorDetails E ;;;
       generateReadableReport E ;;;
       now <- tick ;;
       ret (mkResult totalCreators (clock E now))).

Definition emptyWorld : World :=
  mkWorld (fun _ => None) None [] 0 0.

(** ** Vocabulary of the statements *)

(** The market cap a record counts for, [creator.marketCap || 0]. *)
Definition capOf (c : CreatorDetails) : Q := JS.orZero (marketCap c).

Fixpoint sumCaps (l : list CreatorDetails) : Q :=
  match l with
  | [] => 0%Q
  | c :: r => (capOf c + sumCaps r)%Q
  end.

(** The grand totals over all partitions. *)
Fixpoint grandCount (allData : list FormattedCreatorDetails) : nat :=
  match allData with
  | [] => 0
  | d :: r => List.length (creators d) + grandCount r
  end.

Fixpoint grandCap (allData : list FormattedCreatorDetails) : Q :=
  match allData with
  | [] => 0%Q
  | d :: r => (sumCaps (creators d) + grandCap r)%Q
  end.

(** The blocks of a list of records, one after the other. *)
Fixpoint blocks (l : list CreatorDetails) : string :=
  match l with
  | [] => ""
  | c :: r => Report.block c ++ blocks r
  end.

(** The part of the report for the categories: per category its header and
    the blocks of its records in sorted order. *)
Fixpoint sections (allData : list FormattedCreatorDetails) : string :=
  match allData with
  | [] => ""
  | d :: r =>
      Report.header d ++ blocks (Report.sortedCreators (creators d))
        ++ sections r
  end.

(** The records in the order in which the first pass reads them, and in
    the order in which the second pass renders them. *)
Definition records (allData : list FormattedCreatorDetails)
  : list CreatorDetails :=
  flat_map creators allData.

Definition rendered (allData : list FormattedCreatorDetails)
  : list CreatorDetails :=
  flat_map (fun d => Report.sortedCreators (creators d)) allData.

(** The counters [t] after the records [l] were counted on top of them. *)
Definition counted (t : Report.Totals) (l : list CreatorDetails)
  : Report.Totals :=
  Report.mkTotals (Report.totalCreators t + List.length l)
                  (fold_left Report.addCap l (Report.totalMarketCap t)).

(** Everything of the report below the [Generated on] line, as a function
    of the partitions alone. *)
Definition reportBody (allData : list FormattedCreatorDetails) : string :=
  Report.summary (Report.leading allData)
    ++ nl ++ JS.repeat "=" 50 ++ nl ++ nl
    ++ sections allData ++ nl
    ++ Report.summary (counted (Report.leading allData) (rendered allData)).

(** A record whose market cap is a whole number, that number, and the sum
    of the absolute values of these numbers. *)
Definition whole (c : CreatorDetails) : bool :=
  Qeq_bool (capOf c) (inject_Z (Qfloor (capOf c))).

Fixpoint sumWhole (l : list CreatorDetails) : Z :=
  match l with
  | [] => 0%Z
  | c :: r => (Qfloor (capOf c) + sumWhole r)%Z
  end.

Fixpoint sumAbs (l : list CreatorDetails) : Z :=
  match l with
  | [] => 0%Z
  | c :: r => (Z.abs (Qfloor (capOf c)) + sumAbs r)%Z
  end.

(** A category with the market caps [1], [1] and [2 ^ 53]. *)
Definition unevenCaps : list FormattedCreatorDetails :=
  [ mkFormatted "Founders"
      [ mkDetails (mkCreator "Ann" "https://time.fun/ann") None None (Some 1);
        mkDetails (mkCreator "Bob" "https://time.fun/bob") None None (Some 1);
        mkDetails (mkCreator "Cyd" "https://time.fun/cyd") None None
                  (Some 9007199254740992) ] ].

(** A category with the market caps [100], [500], [500] and [10]. *)
Definition evenCaps : list FormattedCreatorDetails :=
  [ mkFormatted "Founders"
      [ mkDetails (mkCreator "Ann" "https://time.fun/ann") None None (Some 100);
        mkDetails (mkCreator "Bob" "https://time.fun/bob") None None (Some 500);
        mkDetails (mkCreator "Cyd" "https://time.fun/cyd") None None (Some 500);
        mkDetails (mkCreator "Dan" "https://time.fun/dan") None None
                  (Some 10) ] ].

(** [a] may stand before [b] in a descending order. *)
Definition descending (a b : CreatorDetails) : Prop := capOf b <= capOf a.

(** The records whose market cap counts as [v]. *)
Definition hasCap (v : Q) (c : CreatorDetails) : bool := Qeq_bool (capOf c) v.

(** The file of [creators-details/] that a registry label ends up in: the
    listing stores it under its slug, and the enrichment stores the
    category of that file under its slug again. *)
Definition detailsFile (label : string) : string :=
  fileName (JS.replaceFirst ".json" "" (fileName label)).

(** The header the report prints for a registry label. *)
Definition renderedTitle (label : string) : string :=
  Report.title (detailsFile label).

(** How an optional number is shown. *)
Definition shown (format : Q -> string) (field : option Q) : string :=
  match field with
  | Some v => format v
  | None => "N/A"
  end.


(** Reading a file of a directory. *)
Fixpoint lookup {V : Type} (k : string) (m : list (string * V)) : option V :=
  match m with
  | [] => None
  | (k', v) :: r => if String.eqb k k' then Some v else lookup k r
  end.

Definition readFile (directoryName file : string) (w : World)
  : option (list CreatorDetails) :=
  match dirs w directoryName with
  | Some d => lookup file d
  | None => None
  end.

(** The world after [n] more calls were answered. *)
Definition advance (n : nat) (w : World) : World :=
  mkWorld (dirs w) (reportFile w) (sessions w) (launched w) (n + ticks w).

(** What the extraction for [c], asked at call [t], yields: [None] when it
    fails. *)
Definition attempt (E : Engine) (t : nat) (c : CreatorDetails)
  : option CreatorDetails :=
  match creatorPage E t (url (creator c)) with
  | Rendered p => Some (enrich c p)
  | _ => None
  end.

(** The records of the successful extractions over a partition whose first
    creator is asked at call [t]. *)
Fixpoint enriched (E : Engine) (t : nat) (l : list CreatorDetails)
  : list CreatorDetails :=
  match l with
  | [] => []
  | c :: r =>
      match attempt E t c with
      | Some d => d :: enriched E (S t) r
      | None => enriched E (S t) r
      end
  end.

(** [l1] is [l2] with some elements left out. *)
Inductive Subsequence {A : Type} : list A -> list A -> Prop :=
| sub_nil : Subsequence [] []
| sub_skip x l1 l2 : Subsequence l1 l2 -> Subsequence l1 (x :: l2)
| sub_keep x l1 l2 : Subsequence l1 l2 -> Subsequence (x :: l1) (x :: l2).

(** The category a file of [creators/] is read as. *)
Definition categoryOf (file : string) : string :=
  JS.replaceFirst ".json" "" file.

(** [s] occurs in [text]. *)
Definition occursIn (s text : string) : Prop :=
  exists before after, text = before ++ s ++ after.

(** The sessions a call adds to the trace of [w]. *)
Definition addsSessions {A} (m : M A) (w : World) (tr : list Event) : Prop :=
  sessions (snd (m w)) = (sessions w ++ tr)%list.

(** A call that neither opens nor closes a session. *)
Definition quiet {A} (m : M A) : Prop :=
  forall w, sessions (snd (m w)) = sessions w
            /\ launched (snd (m w)) = launched w.

(** The session traces of the enrichment stage, entered when [b] sessions
    were opened before: nothing, a session that is opened and left open, or
    a session that is opened and closed. *)
Definition stageTrace (b : nat) (tr : list Event) : Prop :=
  tr = [] \/ tr = [Launch b] \/ tr = [Launch b; Close b].

(** The session traces of a run of the driver. *)
Definition runTrace (b : nat) (tr : list Event) : Prop :=
  tr = [] \/ tr = [Launch b] \/ tr = [Launch b; Close b]
  \/ tr = [Launch b; Launch (S b); Close b]
  \/ tr = [Launch b; Launch (S b); Close (S b); Close b].

(** A trace in which every session that is opened is a new one and every
    session that is closed is open; [live] are the sessions open so far. *)
Fixpoint balanced (live : list nat) (tr : list Event) : bool :=
  match tr with
  | [] => true
  | Launch b :: r =>
      negb (existsb (Nat.eqb b) live) && balanced (b :: live) r
  | Close b :: r =>
      existsb (Nat.eqb b) live
      && balanced (filter (fun x => negb (Nat.eqb b x)) live) r
  end.

(** How many sessions a trace acquires. *)
Definition acquired (tr : list Event) : nat :=
  List.length (filter (fun e => match e with Launch _ => true | Close _ => false end)
                      tr).

(** The entries of [m] whose file is [name]. *)
Definition targets (name : string) (m : Dir) : Dir :=
  filter (fun kv => String.eqb (fileName (fst kv)) name) m.

(** *** Engines used as examples *)

Definition emptyPage : DetailPage := mkDetailPage Absent Absent Absent.

(** Every call succeeds, every grid is empty, the clock shows the number of
    the call. *)
Definition quietEngine : Engine :=
  mkEngine (fun _ => true) (fun _ => true)
           (fun _ _ => Handle (Some []))
           (fun _ _ => Rendered emptyPage)
           (fun t => JS.natToString t).

(** As [quietEngine], but no [.grid] ever shows up and the wait for it
    times out. *)
Definition gridTimeout : Engine :=
  mkEngine (fun _ => true) (fun _ => true)
           (fun _ _ => WaitRejects)
           (fun _ _ => Rendered emptyPage)
           (fun t => JS.natToString t).

(** As [quietEngine], but the wait for [.grid] resolves to [null]. *)
Definition gridNull : Engine :=
  mkEngine (fun _ => true) (fun _ => true)
           (fun _ _ => NoHandle)
           (fun _ _ => Rendered emptyPage)
           (fun t => JS.natToString t).

(** Three creators of which the second one cannot be visited. *)
Definition ann : CreatorDetails := stub (mkCreator "Ann" "https://time.fun/ann").
Definition bob : CreatorDetails := stub (mkCreator "Bob" "https://time.fun/bob").
Definition cyd : CreatorDetails := stub (mkCreator "Cyd" "https://time.fun/cyd").

Definition bobFails : Engine :=
  mkEngine (fun _ => true) (fun _ => true)
           (fun _ _ => Handle (Some []))
           (fun _ u => if String.eqb u "https://time.fun/bob"
                       then NavigationRejects else Rendered emptyPage)
           (fun t => JS.natToString t).

(** The first call that the engine answers (the call number [0]) is the
    visit of a creator page that cannot be loaded; every later visit
    succeeds. *)
Definition firstVisitFails : Engine :=
  mkEngine (fun _ => true) (fun _ => true)
           (fun _ _ => Handle (Some []))
           (fun t _ => if (t =? 0)%nat
                       then NavigationRejects else Rendered emptyPage)
           (fun t => JS.natToString t).

(** A [creators/] with two files that the enrichment stores under one file
    of [creators-details/]. *)
Definition sameSlug : World :=
  mkWorld (fun d => if String.eqb d "creators"
                    then Some [("Data Analysis.json", [ann]);
                               ("data-analysis.json", [bob])]
                    else None)
          None [] 0 0.

(** A working directory in which an earlier run left a partition of a
    category that the registry does not have. *)
Definition leftOver : World :=
  mkWorld (fun d => if String.eqb d "creators"
                    then Some [("artists.json", [ann; bob])] else None)
          None [] 0 0.

(** A clock that stands still. *)
Definition frozenClock : Engine :=
  mkEngine (fun _ => true) (fun _ => true)
           (fun _ _ => Handle (Some []))
           (fun _ _ => Rendered emptyPage)
           (fun _ => "1/1/2025, 12:00:00 AM").

(** A working directory with one detail partition. *)
Definition detailsOnly : World :=
  mkWorld (fun d => if String.eqb d "creators-details"
                    then Some [("artists.json", [enrich ann emptyPage])]
                    else None)
          None [] 0 0.

(** ** Vocabulary of the further properties *)

Fixpoint hasSpace (s : string) : bool :=
  match s with
  | EmptyString => false
  | String c r => JS.isSpace c || hasSpace r
  end.

Fixpoint hasUpper (s : string) : bool :=
  match s with
  | EmptyString => false
  | String c r => JS.isUpper c || hasUpper r
  end.

Fixpoint allSpaces (s : string) : bool :=
  match s with
  | EmptyString => true
  | String c r => JS.isSpace c && allSpaces r
  end.

(** [pat] occurs somewhere in [s]. *)
Fixpoint occurs (pat s : string) : bool :=
  prefix pat s
  || match s with
     | EmptyString => false
     | String _ r => occurs pat r
     end.

(** A label whose file name is one component of a path: it has no [/] and
    no NUL, and with its suffix it is at most 255 bytes long. *)
Definition plainLabel (label : string) : bool :=
  negb (occurs "/" label) && negb (occurs (String Ascii.zero "") label)
  && (String.length (fileName label) <=? 255)%nat.

(** The two directories of the partition store. *)
Definition storeDirs : list string := ["creators"; "creators-details"].

Definition isJson (entry : string * list CreatorDetails) : bool :=
  JS.endsWith ".json" (fst entry).




(** What the visit of a category page at call [t] lists: [None] when the
    visit rejects. *)
Definition listed (E : Engine) (t : nat) (remoteId : Z) : option (list Creator) :=
  match categoryPage E t remoteId with
  | NoHandle => Some []
  | Handle (Some links) => Some (map creatorOfAnchor links)
  | _ => None
  end.

(** The creators listed over the categories [cs], the first of which is
    visited at call [t]. *)
Fixpoint listedTotal (E : Engine) (t : nat) (cs : list (string * Z)) : nat :=
  match cs with
  | [] => 0
  | (_, remoteId) :: r =>
      match listed E t remoteId with
      | Some l => List.length l
      | None => 0
      end + listedTotal E (S t) r
  end.

(** The extractions that fail over a partition whose first creator is
    asked at call [t]. *)
Fixpoint failures (E : Engine) (t : nat) (l : list CreatorDetails) : nat :=
  match l with
  | [] => 0
  | c :: r =>
      match attempt E t c with
      | Some _ => 0
      | None => 1
      end + failures E (S t) r
  end.

(** The file of a category of the registry. *)
Definition registryFile (c : string * Z) : string := fileName (fst c).

(** The directories other than [d]. *)
Definition otherDirs (d : string) (w : World) (d' : string) : option Dir :=
  if String.eqb d' d then None else dirs w d'.

(** An engine that cannot be launched, and one that launches but opens no
    page. *)
Definition noLaunch : Engine :=
  mkEngine (fun _ => false) (fun _ => true)
           (fun _ _ => Handle (Some []))
           (fun _ _ => Rendered emptyPage)
           (fun t => JS.natToString t).

Definition noPage : Engine :=
  mkEngine (fun _ => true) (fun _ => false)
           (fun _ _ => Handle (Some []))
           (fun _ _ => Rendered emptyPage)
           (fun t => JS.natToString t).

(** An engine whose third category page cannot be loaded. *)
Definition thirdFails : Engine :=
  mkEngine (fun _ => true) (fun _ => true)
           (fun _ remoteId => if (remoteId =? 3)%Z then GotoRejects
                              else Handle (Some [mkAnchor (Some " Ann ")
                                                          "https://time.fun/ann"]))
           (fun _ _ => Rendered emptyPage)
           (fun t => JS.natToString t).

(** A directory of detail partitions with a file that is none. *)
Definition mixedDetails : World :=
  mkWorld (fun d => if String.eqb d "creators-details"
                    then Some [("notes.txt", [bob]);
                               ("artists.json", [enrich ann emptyPage])]
                    else None)
          None [] 0 0.

(** The content of the last [.json] file of a listing that is read as the
    category [k]. *)
Fixpoint lastJson (k : string) (files : Dir) : option (list CreatorDetails) :=
  match files with
  | [] => None
  | (f, c) :: r =>
      match lastJson k r with
      | Some v => Some v
      | None =>
          if JS.endsWith ".json" f && String.eqb (categoryOf f) k
          then Some c else None
      end
  end.

(** The partitions of a listing, by category. *)
Definition partitionsOf (files : Dir) : Dir :=
  map (fun e => (categoryOf (fst e), snd e)) (filter isJson files).

(** A directory with two files that are read as the same category, and a
    file that is no partition. *)
Definition oddNames : World :=
  mkWorld (fun d => if String.eqb d "creators"
                    then Some [("a.json.json", [ann]); ("notes.txt", [bob]);
                               ("b.json", [bob]); (".jsona.json", [cyd])]
                    else None)
          None [] 0 0.

(** ** Lemmas on strings and numbers *)

Lemma append_assoc (a b c : string) : (a ++ b) ++ c = a ++ (b ++ c).
Proof.
  induction a as [|x a IH]; simpl; [reflexivity|].
  now rewrite IH.
Qed.

Lemma append_nil_r (a : string) : a ++ "" = a.
Proof.
  induction a as [|x a IH]; simpl; [reflexivity|].
  now rewrite IH.
Qed.

Lemma div_cross (a b a' b' : Z) :
  (0 < b)%Z -> (0 < b')%Z -> (a * b' = a' * b)%Z -> (a / b = a' / b')%Z.
Proof.
  intros Hb Hb' H.
  rewrite <- (Z.div_mul_cancel_r a b b') by lia.
  rewrite <- (Z.div_mul_cancel_l a' b' b) by lia.
  rewrite H. f_equal; lia.
Qed.

Lemma roundScaled_Qeq (q q' : Q) (k : Z) :
  q == q' -> JS.roundScaled q k = JS.roundScaled q' k.
Proof.
  unfold Qeq, JS.roundScaled. intros H.
  assert (Ha : (Z.abs (Qnum q) * Zpos (Qden q')
                = Z.abs (Qnum q') * Zpos (Qden q))%Z).
  { apply (f_equal Z.abs) in H. rewrite !Z.abs_mul in H.
    now rewrite !(Z.abs_eq (Zpos _)) in H by lia. }
  apply div_cross; [lia | lia |].
  transitivity (4 * k * (Z.abs (Qnum q) * Zpos (Qden q'))
                + 2 * Zpos (Qden q) * Zpos (Qden q'))%Z; [ring|].
  rewrite Ha. ring.
Qed.

Lemma minus_Qeq (q q' : Q) : q == q' -> JS.minus q = JS.minus q'.
Proof.
  unfold Qeq, JS.minus. intros H.
  destruct (Z.ltb_spec (Qnum q) 0), (Z.ltb_spec (Qnum q') 0);
    try reflexivity; exfalso; nia.
Qed.

Lemma toLocaleString_Qeq (q q' : Q) :
  q == q' -> JS.toLocaleString q = JS.toLocaleString q'.
Proof.
  intros H. unfold JS.toLocaleString.
  now rewrite (roundScaled_Qeq q q' 1000 H), (minus_Qeq q q' H).
Qed.

Lemma summary_Qeq (n : nat) (m m' : Q) :
  m == m' ->
  Report.summary (Report.mkTotals n (JS.Finite m))
  = Report.summary (Report.mkTotals n (JS.Finite m')).
Proof.
  intros H. unfold Report.summary, JS.numberToLocaleString.
  cbn [Report.totalCreators Report.totalMarketCap].
  now rewrite (toLocaleString_Qeq m m' H).
Qed.

(** ** Doubles that are whole numbers *)

Lemma Qred_inject (z : Z) : Qred (inject_Z z) = inject_Z z.
Proof.
  unfold Qred, inject_Z.
  generalize (Z.ggcd_gcd z 1) (Z.ggcd_correct_divisors z 1).
  destruct (Z.ggcd z 1) as (g, (a, b)). cbn [fst snd].
  rewrite Z.gcd_1_r. intros -> [Ha Hb].
  rewrite Z.mul_1_l in Ha, Hb. now subst.
Qed.

Lemma roundHalfEven_1 (n : Z) : JS.roundHalfEven n 1 = n.
Proof.
  unfold JS.roundHalfEven. rewrite Z.mod_1_r, Z.div_1_r. reflexivity.
Qed.

Lemma ilog2_1 (n : Z) : (0 < n)%Z -> JS.ilog2 n 1 = Z.log2 n.
Proof.
  intros Hn. unfold JS.ilog2. change (Z.log2 1) with 0%Z. rewrite Z.sub_0_r.
  pose proof (Z.log2_nonneg n) as Hl.
  rewrite (Z.max_l 0 (- Z.log2 n)) by lia.
  rewrite (Z.max_r 0 (Z.log2 n)) by lia.
  destruct (Z.log2_spec n Hn) as [Hlo _].
  destruct (Z.ltb_spec (n * 2 ^ 0) (1 * 2 ^ Z.log2 n)); [|reflexivity].
  change (2 ^ 0)%Z with 1%Z in *. lia.
Qed.

(** A whole number below [2 ^ 53] is a double. *)
Lemma double_integer (z : Z) (q : Q) :
  (Z.abs z < 2 ^ 53)%Z -> q == inject_Z z ->
  exists r, JS.double q = JS.Finite r /\ r == inject_Z z.
Proof.
  intros Hb Hq. unfold JS.double.
  rewrite (Qred_complete _ _ Hq), Qred_inject.
  cbn [Qnum Qden inject_Z].
  destruct (Z.eqb_spec (Z.abs z) 0) as [H0|H0].
  - exists 0. split; [reflexivity|].
    assert (z = 0%Z) by lia. subst z. reflexivity.
  - assert (Hn : (0 < Z.abs z)%Z) by lia.
    rewrite (ilog2_1 _ Hn).
    assert (HL : (Z.log2 (Z.abs z) < 53)%Z) by (apply Z.log2_lt_pow2; lia).
    pose proof (Z.log2_nonneg (Z.abs z)) as HL0.
    set (L := Z.log2 (Z.abs z)) in *.
    rewrite (Z.max_l (L - 52) (-1074)) by lia.
    rewrite (Z.max_r 0 (- (L - 52))) by lia.
    rewrite (Z.max_l 0 (L - 52)) by lia.
    change (2 ^ 0)%Z with 1%Z. rewrite Z.mul_1_r, roundHalfEven_1.
    assert (Hp : (0 < 2 ^ (- (L - 52)))%Z) by (apply Z.pow_pos_nonneg; lia).
    set (p := (2 ^ (- (L - 52)))%Z) in *.
    destruct (Z.leb_spec 0 (L - 52)) as [He|He].
    + assert (HL52 : (L - 52 = 0)%Z) by lia.
      assert (p = 1%Z) by (unfold p; rewrite HL52; reflexivity).
      rewrite HL52. change (2 ^ 0)%Z with 1%Z. rewrite H, !Z.mul_1_r.
      destruct (Z.leb_spec (2 ^ 1024) (Z.abs z)) as [Hbig|_].
      * exfalso.
        assert ((2 ^ 53 < 2 ^ 1024)%Z) by (apply Z.pow_lt_mono_r; lia). lia.
      * cbn [andb]. eexists; split; [reflexivity|].
        unfold JS.scale2. cbn [Z.leb Z.compare].
        change (2 ^ 0)%Z with 1%Z. rewrite Z.mul_1_r.
        destruct (Z.ltb_spec z 0); f_equiv; lia.
    + cbn [andb]. eexists; split; [reflexivity|].
      unfold JS.scale2.
      destruct (Z.leb_spec 0 (L - 52)); [lia|].
      fold p. unfold Qeq. cbn [Qnum Qden inject_Z].
      rewrite Z2Pos.id by exact Hp.
      destruct (Z.ltb_spec z 0); nia.
Qed.

(** ** The per-category sort *)

Section SortFacts.
Context {A : Type}.
Variable compareFn : A -> A -> Q.

Lemma insert_perm (x : A) (l : list A) :
  Permutation (JS.insert compareFn x l) (x :: l).
Proof.
  induction l as [|y r IH]; simpl; [reflexivity|].
  destruct (Qle_bool (compareFn x y) 0); [reflexivity|].
  rewrite IH. apply perm_swap.
Qed.

Lemma sort_perm (l : list A) : Permutation (JS.sort compareFn l) l.
Proof.
  induction l as [|x r IH]; simpl; [reflexivity|].
  rewrite insert_perm. now constructor.
Qed.

Lemma sort_length (l : list A) :
  List.length (JS.sort compareFn l) = List.length l.
Proof. apply Permutation_length, sort_perm. Qed.
End SortFacts.

Lemma compare_le (x y : CreatorDetails) :
  Qle_bool (Report.byMarketCapDesc x y) 0 = true <-> capOf y <= capOf x.
Proof.
  rewrite Qle_bool_iff. unfold Report.byMarketCapDesc, capOf.
  split; intros H.
  - apply Qplus_le_l with (z := - JS.orZero (marketCap x)).
    now rewrite Qplus_opp_r.
  - apply Qplus_le_l with (z := - JS.orZero (marketCap x)) in H.
    now rewrite Qplus_opp_r in H.
Qed.

Lemma compare_gt (x y : CreatorDetails) :
  Qle_bool (Report.byMarketCapDesc x y) 0 = false -> capOf x < capOf y.
Proof.
  intros H. apply Qnot_le_lt. intros Hle.
  apply compare_le in Hle. congruence.
Qed.

Lemma insert_descending (x : CreatorDetails) (l : list CreatorDetails) :
  StronglySorted descending l ->
  StronglySorted descending (JS.insert Report.byMarketCapDesc x l).
Proof.
  induction 1 as [|y r Hs IH Hall]; simpl.
  - constructor; constructor.
  - destruct (Qle_bool (Report.byMarketCapDesc x y) 0) eqn:Hc.
    + apply compare_le in Hc.
      constructor; [now constructor|].
      constructor; [exact Hc|].
      eapply Forall_impl; [|exact Hall].
      intros z Hz. unfold descending in *. eapply Qle_trans; eassumption.
    + apply compare_gt in Hc.
      constructor; [exact IH|].
      eapply Permutation_Forall; [symmetry; apply insert_perm|].
      constructor; [|exact Hall].
      unfold descending. now apply Qlt_le_weak.
Qed.

Lemma sorted_descending (l : list CreatorDetails) :
  StronglySorted descending (Report.sortedCreators l).
Proof.
  unfold Report.sortedCreators.
  induction l as [|x r IH]; simpl; [constructor|].
  now apply insert_descending.
Qed.

Lemma insert_filter (v : Q) (x : CreatorDetails) (l : list CreatorDetails) :
  filter (hasCap v) (JS.insert Report.byMarketCapDesc x l)
  = filter (hasCap v) (x :: l).
Proof.
  induction l as [|y r IH]; [reflexivity|].
  cbn [JS.insert].
  destruct (Qle_bool (Report.byMarketCapDesc x y) 0) eqn:Hc; [reflexivity|].
  apply compare_gt in Hc.
  cbn [filter] in *. rewrite IH.
  destruct (hasCap v x) eqn:Hx; [|reflexivity].
  destruct (hasCap v y) eqn:Hy; [|reflexivity].
  exfalso. unfold hasCap in *.
  apply Qeq_bool_eq in Hx, Hy. rewrite Hx, Hy in Hc.
  exact (Qlt_irrefl _ Hc).
Qed.

Lemma sorted_stable (v : Q) (l : list CreatorDetails) :
  filter (hasCap v) (Report.sortedCreators l) = filter (hasCap v) l.
Proof.
  unfold Report.sortedCreators.
  induction l as [|x r IH]; [reflexivity|].
  cbn [JS.sort fold_right]. rewrite insert_filter.
  cbn [filter]. fold (JS.sort Report.byMarketCapDesc r). now rewrite IH.
Qed.

(** ** The two passes of the report *)

Lemma sumCaps_app (l l' : list CreatorDetails) :
  sumCaps (l ++ l') == sumCaps l + sumCaps l'.
Proof.
  induction l as [|c r IH]; simpl.
  - now rewrite Qplus_0_l.
  - rewrite IH. now rewrite Qplus_assoc.
Qed.

Lemma grandCap_records (allData : list FormattedCreatorDetails) :
  grandCap allData == sumCaps (records allData).
Proof.
  induction allData as [|d r IH]; simpl; [reflexivity|].
  fold (records r). rewrite sumCaps_app. now rewrite IH.
Qed.

Lemma grandCount_records (allData : list FormattedCreatorDetails) :
  List.length (records allData) = grandCount allData.
Proof.
  induction allData as [|d r IH]; simpl; [reflexivity|].
  fold (records r). rewrite List.length_app. now rewrite IH.
Qed.

Lemma rendered_perm (allData : list FormattedCreatorDetails) :
  Permutation (rendered allData) (records allData).
Proof.
  induction allData as [|d r IH]; simpl; [reflexivity|].
  apply Permutation_app; [apply sort_perm | exact IH].
Qed.

Lemma counted_app (t : Report.Totals) (l l' : list CreatorDetails) :
  counted (counted t l) l' = counted t (l ++ l').
Proof.
  unfold counted. cbn [Report.totalCreators Report.totalMarketCap].
  rewrite fold_left_app, List.length_app. f_equal. lia.
Qed.

Lemma counted_nil (t : Report.Totals) : counted t [] = t.
Proof.
  unfold counted. cbn [fold_left List.length]. rewrite Nat.add_0_r.
  now destruct t.
Qed.

Lemma firstPass_from (allData : list FormattedCreatorDetails) (t : Report.Totals) :
  fold_left Report.firstPassStep allData t = counted t (records allData).
Proof.
  revert t. induction allData as [|d r IH]; intros t.
  - cbn [fold_left records flat_map]. now rewrite counted_nil.
  - cbn [fold_left records flat_map]. fold (records r).
    rewrite IH, <- counted_app. reflexivity.
Qed.

Lemma creatorSteps (l : list CreatorDetails) (s : string) (t : Report.Totals) :
  fold_left Report.creatorStep l (s, t) = (s ++ blocks l, counted t l).
Proof.
  revert s t. induction l as [|c r IH]; intros s t.
  - cbn [fold_left blocks]. now rewrite append_nil_r, counted_nil.
  - cbn [fold_left blocks]. unfold Report.creatorStep at 2. cbn [fst snd].
    rewrite IH, append_assoc. f_equal.
    unfold counted. cbn [Report.totalCreators Report.totalMarketCap
                         fold_left List.length].
    f_equal. lia.
Qed.

Lemma categorySteps (allData : list FormattedCreatorDetails)
      (s : string) (t : Report.Totals) :
  fold_left Report.categoryStep allData (s, t)
  = (s ++ sections allData, counted t (rendered allData)).
Proof.
  revert s t. induction allData as [|d r IH]; intros s t.
  - cbn [fold_left sections rendered flat_map].
    now rewrite append_nil_r, counted_nil.
  - cbn [fold_left sections rendered flat_map]. fold (rendered r).
    unfold Report.categoryStep at 2. cbn [fst snd].
    rewrite creatorSteps, IH, counted_app, !append_assoc. reflexivity.
Qed.

Lemma leading_eq (allData : list FormattedCreatorDetails) :
  Report.leading allData
  = counted (Report.mkTotals 0 (JS.Finite 0)) (records allData).
Proof. apply firstPass_from. Qed.

Lemma trailing_eq (now : string) (allData : list FormattedCreatorDetails) :
  Report.trailing now allData
  = counted (Report.leading allData) (rendered allData).
Proof.
  unfold Report.trailing, Report.secondPass. now rewrite categorySteps.
Qed.

(** The text of the report: the [Generated on] line, then a text that the
    partitions determine. *)
Lemma render_eq (now : string) (allData : list FormattedCreatorDetails) :
  Report.render now allData = Report.preamble now ++ reportBody allData.
Proof.
  unfold Report.render, reportBody, Report.secondPass. cbv zeta.
  rewrite categorySteps. cbn [fst snd].
  now rewrite !append_assoc.
Qed.

(** *** Sums of whole numbers *)

Lemma whole_cap (c : CreatorDetails) :
  whole c = true -> capOf c == inject_Z (Qfloor (capOf c)).
Proof. unfold whole. apply Qeq_bool_eq. Qed.

Lemma sumAbs_nonneg (l : list CreatorDetails) : (0 <= sumAbs l)%Z.
Proof. induction l as [|c r IH]; simpl; lia. Qed.

Lemma sumWhole_bound (l : list CreatorDetails) :
  (Z.abs (sumWhole l) <= sumAbs l)%Z.
Proof. induction l as [|c r IH]; simpl; lia. Qed.

Lemma sumWhole_perm (l l' : list CreatorDetails) :
  Permutation l l' -> sumWhole l = sumWhole l'.
Proof. induction 1; simpl; lia. Qed.

Lemma sumAbs_perm (l l' : list CreatorDetails) :
  Permutation l l' -> sumAbs l = sumAbs l'.
Proof. induction 1; simpl; lia. Qed.

Lemma whole_perm (l l' : list CreatorDetails) :
  Permutation l l' -> forallb whole l = true -> forallb whole l' = true.
Proof.
  intros Hp. rewrite !forallb_forall. intros H c Hc.
  apply H. eapply Permutation_in; [symmetry; exact Hp | exact Hc].
Qed.

Lemma sumCaps_whole (l : list CreatorDetails) :
  forallb whole l = true -> sumCaps l == inject_Z (sumWhole l).
Proof.
  induction l as [|c r IH]; cbn [forallb sumCaps sumWhole]; [reflexivity|].
  intros H. apply andb_true_iff in H as [Hc Hr].
  rewrite (IH Hr), inject_Z_plus. now rewrite <- (whole_cap c Hc).
Qed.

Lemma addCap_exact (c : CreatorDetails) (r : Q) (z : Z) :
  whole c = true -> r == inject_Z z ->
  (Z.abs z + Z.abs (Qfloor (capOf c)) < 2 ^ 53)%Z ->
  exists r', Report.addCap (JS.Finite r) c = JS.Finite r'
             /\ r' == inject_Z (z + Qfloor (capOf c)).
Proof.
  intros Hw Hr Hb. unfold Report.addCap. fold (capOf c).
  destruct (double_integer (Qfloor (capOf c)) (capOf c)) as (x & Hx & Hxe);
    [lia | now apply whole_cap |].
  rewrite Hx. cbn [JS.plus].
  apply double_integer; [lia|].
  now rewrite Hr, Hxe, inject_Z_plus.
Qed.

(** Adding whole market caps is exact as long as the sums stay below
    [2 ^ 53]. *)
Lemma addCaps_exact (l : list CreatorDetails) (r : Q) (z : Z) :
  forallb whole l = true -> r == inject_Z z ->
  (Z.abs z + sumAbs l < 2 ^ 53)%Z ->
  exists r', fold_left Report.addCap l (JS.Finite r) = JS.Finite r'
             /\ r' == inject_Z (z + sumWhole l).
Proof.
  revert r z. induction l as [|c l IH]; intros r z Hw Hr Hb.
  - exists r. split; [reflexivity|]. cbn [sumWhole]. now rewrite Z.add_0_r.
  - cbn [forallb] in Hw. apply andb_true_iff in Hw as [Hc Hl].
    cbn [sumAbs] in Hb. pose proof (sumAbs_nonneg l) as Hn.
    destruct (addCap_exact c r z Hc Hr) as (r1 & H1 & H1e); [lia|].
    cbn [fold_left]. rewrite H1.
    destruct (IH r1 (z + Qfloor (capOf c))%Z Hl H1e) as (r2 & H2 & H2e);
      [lia|].
    exists r2. split; [exact H2|].
    rewrite H2e. cbn [sumWhole]. now rewrite Z.add_assoc.
Qed.

(** ** Totals of the two summaries *)

(** C1, as it is stated, fails on [unevenCaps]: the first pass adds
    [1 + 1 + 2 ^ 53] and shows [9,007,199,254,740,994]; the second pass adds
    [2 ^ 53], [1] and [1] on top of it, where each sum is rounded to a
    double, and the trailing summary shows [18,014,398,509,481,984], which
    is not twice the leading total. *)
Lemma C1_trailing_not_twice :
  let lead := Report.leading unevenCaps in
  let trail := Report.trailing "1/1/2025, 12:00:00 AM" unevenCaps in
  Report.totalMarketCap lead = JS.Finite 9007199254740994
  /\ Report.totalMarketCap trail = JS.Finite 18014398509481984
  /\ ~ 18014398509481984 == 2 * 9007199254740994
  /\ Report.summary lead
     = "Summary" ++ nl ++ "=======" ++ nl ++ "Total Creators: 3" ++ nl
       ++ "Total Market Cap: $9,007,199,254,740,994" ++ nl
  /\ Report.summary trail
     = "Summary" ++ nl ++ "=======" ++ nl ++ "Total Creators: 6" ++ nl
       ++ "Total Market Cap: $18,014,398,509,481,984" ++ nl
  /\ Report.render "1/1/2025, 12:00:00 AM" unevenCaps
     = Report.preamble "1/1/2025, 12:00:00 AM"
       ++ Report.summary lead ++ nl ++ JS.repeat "=" 50 ++ nl ++ nl
       ++ sections unevenCaps ++ nl ++ Report.summary trail.
Proof.
  cbv zeta. repeat split; try (vm_compute; reflexivity).
  intros H. vm_compute in H. discriminate H.
Qed.

(** C1, amended: the trailing summary's counters continue the Pass-1
    totals during the rendering loop.  The trailing count is exactly twice
    the leading count, for every input.  The trailing market cap is the
    leading total with the market cap of every rendered record added once
    more, in rendered order and in double arithmetic; when the market caps
    are whole numbers whose absolute values sum to less than [2 ^ 52], every
    sum is exact and the trailing total is exactly twice the leading one. *)
Theorem C1_trailing_summary_continues
        (now : string) (allData : list FormattedCreatorDetails) :
  let lead := Report.leading allData in
  let trail := Report.trailing now allData in
  (Report.totalCreators lead = grandCount allData)%nat
  /\ Report.totalMarketCap lead
     = fold_left Report.addCap (records allData) (JS.Finite 0)
  /\ (Report.totalCreators trail = 2 * Report.totalCreators lead)%nat
  /\ Report.totalMarketCap trail
     = fold_left Report.addCap (rendered allData) (Report.totalMarketCap lead)
  /\ Permutation (rendered allData) (records allData)
  /\ Report.render now allData
     = Report.preamble now
       ++ Report.summary lead ++ nl ++ JS.repeat "=" 50 ++ nl ++ nl
       ++ sections allData ++ nl ++ Report.summary trail
  /\ (forallb whole (records allData) = true ->
      (sumAbs (records allData) < 2 ^ 52)%Z ->
      exists l t : Q,
        Report.totalMarketCap lead = JS.Finite l
        /\ Report.totalMarketCap trail = JS.Finite t
        /\ l == grandCap allData
        /\ t == 2 * l
        /\ Report.summary trail
           = Report.summary
               (Report.mkTotals (2 * Report.totalCreators lead)
                                (JS.Finite (2 * l)))).
Proof.
  intros lead trail.
  assert (Ln : Report.totalCreators lead = grandCount allData).
  { unfold lead. rewrite leading_eq. cbn [counted Report.totalCreators].
    now rewrite grandCount_records. }
  assert (Lm : Report.totalMarketCap lead
               = fold_left Report.addCap (records allData) (JS.Finite 0)).
  { unfold lead. now rewrite leading_eq. }
  assert (Tn : (Report.totalCreators trail = 2 * Report.totalCreators lead)%nat).
  { unfold trail. rewrite trailing_eq. fold lead.
    cbn [counted Report.totalCreators].
    rewrite (Permutation_length (rendered_perm allData)), grandCount_records.
    lia. }
  assert (Tm : Report.totalMarketCap trail
               = fold_left Report.addCap (rendered allData)
                           (Report.totalMarketCap lead)).
  { unfold trail. now rewrite trailing_eq. }
  split; [exact Ln|]. split; [exact Lm|]. split; [exact Tn|].
  split; [exact Tm|]. split; [apply rendered_perm|].
  split.
  - rewrite render_eq. unfold reportBody. fold lead.
    unfold trail. now rewrite trailing_eq.
  - intros Hw Hb.
    pose proof (rendered_perm allData) as Hp.
    pose proof (sumAbs_nonneg (records allData)) as Hn.
    pose proof (sumWhole_bound (records allData)) as Hs.
    destruct (addCaps_exact (records allData) 0 0 Hw) as (l & Hl & Hle);
      [reflexivity | cbn [Z.abs]; lia |].
    rewrite Z.add_0_l in Hle.
    destruct (addCaps_exact (rendered allData) l (sumWhole (records allData)))
      as (t & Ht & Hte).
    { apply (whole_perm (records allData)); [now symmetry | exact Hw]. }
    { exact Hle. }
    { rewrite (sumAbs_perm _ _ Hp). lia. }
    rewrite (sumWhole_perm _ _ Hp) in Hte.
    assert (Hlc : l == grandCap allData).
    { now rewrite Hle, grandCap_records, (sumCaps_whole _ Hw). }
    assert (Htl : t == 2 * l).
    { rewrite Hte, Hle, inject_Z_plus. ring. }
    exists l, t.
    split; [now rewrite Lm|].
    split; [now rewrite Tm, Lm, Hl|].
    split; [exact Hlc|]. split; [exact Htl|].
    destruct trail as [n m] eqn:Et. cbn [Report.totalCreators] in Tn.
    cbn [Report.totalMarketCap] in Tm. rewrite Lm, Hl, Ht in Tm.
    rewrite Tm, Tn. now apply summary_Qeq.
Qed.

(** With the market caps [100], [500], [500] and [10] every sum is exact. *)
Lemma C1_trailing_witness :
  exists l t : Q,
    Report.totalMarketCap (Report.leading evenCaps) = JS.Finite l
    /\ Report.totalMarketCap (Report.trailing "1/1/2025, 12:00:00 AM" evenCaps)
       = JS.Finite t
    /\ l == grandCap evenCaps
    /\ t == 2 * l
    /\ Report.summary (Report.trailing "1/1/2025, 12:00:00 AM" evenCaps)
       = Report.summary
           (Report.mkTotals (2 * Report.totalCreators (Report.leading evenCaps))
                            (JS.Finite (2 * l))).
Proof.
  destruct (C1_trailing_summary_continues "1/1/2025, 12:00:00 AM" evenCaps)
    as (_ & _ & _ & _ & _ & _ & H).
  apply H; [reflexivity | vm_compute; reflexivity].
Defined.

(** ** Order of the rendered blocks *)

(** C3: in every category the blocks are rendered in the order of the sort
    by market cap: a permutation of the records, descending, and stable (the
    records of equal market cap keep their relative order); for market caps
    [100, 500, 500, 10] of A, B, C, D the order is B, C, A, D. *)
Theorem C3_sorted_descending_stable :
  (forall l : list CreatorDetails,
      Permutation (Report.sortedCreators l) l
      /\ StronglySorted descending (Report.sortedCreators l)
      /\ forall v : Q,
          filter (hasCap v) (Report.sortedCreators l) = filter (hasCap v) l)
  /\ (forall (now : string) (allData : list FormattedCreatorDetails),
         Report.render now allData = Report.preamble now ++ reportBody allData)
  /\ (forall (d : FormattedCreatorDetails) (r : list FormattedCreatorDetails),
         sections (d :: r)
         = Report.header d ++ blocks (Report.sortedCreators (creators d))
             ++ sections r)
  /\ (forall (a b c d : Creator) (m p : option Q),
         let A := mkDetails a m p (Some 100) in
         let B := mkDetails b m p (Some 500) in
         let C := mkDetails c m p (Some 500) in
         let D := mkDetails d m p (Some 10) in
         Report.sortedCreators [A; B; C; D] = [B; C; A; D]).
Proof.
  split; [|split; [|split]].
  - intros l. split; [apply sort_perm|].
    split; [apply sorted_descending|].
    intros v. apply sorted_stable.
  - apply render_eq.
  - reflexivity.
  - intros. reflexivity.
Qed.

(** ** Market cap parsing *)

(** C6: the market cap text is cleaned by removing the first [$] and the
    first [,] only.  With one separator the denoted number is read; with two
    or more, as in ["$1,234,567.89"], the reading stops at the second comma
    and the record gets the prefix [1234] instead of [1234567.89].  An
    absent label gives [0]; a text that is no number gives [NaN]. *)
Theorem C6_market_cap_truncated (c : CreatorDetails) (minutes price : Probe) :
  cleanMarketCap "$1,234,567.89" = "1234,567.89"
  /\ marketCap (enrich c (mkDetailPage minutes price
                                       (Present (Some "$1,234,567.89"))))
     = Some 1234
  /\ ~ 1234 == 1234567.89
  /\ marketCap (enrich c (mkDetailPage minutes price
                                       (Present (Some "$1,234.56"))))
     = Some 1234.56
  /\ marketCap (enrich c (mkDetailPage minutes price Absent)) = Some 0
  /\ marketCap (enrich c (mkDetailPage minutes price (Present None))) = Some 0
  /\ marketCap (enrich c (mkDetailPage minutes price (Present (Some "n/a"))))
     = None.
Proof.
  unfold enrich, detailsOfPage. cbn [marketCapProbe marketCap].
  repeat split; try reflexivity.
  intros H. vm_compute in H. discriminate.
Qed.

(** ** Category titles *)

(** C8, as stated, fails: the header of a multi-word label has only its
    first letter in upper case. *)
Lemma C8_multiword_not_restored :
  renderedTitle "Time.fun Team" = "Time.fun team"
  /\ renderedTitle "Time.fun Team" <> "Time.fun Team"
  /\ renderedTitle "Data Analysis" <> "Data Analysis"
  /\ renderedTitle "Trading Analysis" <> "Trading Analysis".
Proof.
  repeat split; try reflexivity; intros H; vm_compute in H; discriminate.
Qed.

(** C8 (amended): re-titling turns hyphens into spaces and puts only the
    first character in upper case; over the registry this gives back the
    five single-word labels, and for the three multi-word labels
    "Time.fun team", "Data analysis" and "Trading analysis". *)
Theorem C8_retitled_registry :
  map (fun c => slug (fst c)) categories
  = [ "founders"; "influencers"; "personalities"; "investors"; "developers";
      "time.fun-team"; "data-analysis"; "trading-analysis" ]
  /\ map (fun c => renderedTitle (fst c)) categories
     = [ "Founders"; "Influencers"; "Personalities"; "Investors"; "Developers";
         "Time.fun team"; "Data analysis"; "Trading analysis" ]
  /\ (forall file : string,
         Report.title file
         = JS.capitalizeFirst
             (JS.replaceAllChar "-" " " (JS.replaceFirst ".json" "" file))).
Proof.
  repeat split.
Qed.

(** ** Fields of a block *)

Lemma decimal_nonempty (z : Z) : JS.decimal z <> "".
Proof.
  unfold JS.decimal.
  destruct (Z.to_N z) as [|p]; [discriminate|].
  simpl. pose proof (DecimalPos.Unsigned.to_uint_nonnil p) as H.
  destruct (Pos.to_uint p); try discriminate. congruence.
Qed.

Lemma orString_nonempty (s d : string) :
  s <> "" -> JS.orString (Some s) d = s.
Proof. destruct s; [congruence | reflexivity]. Qed.

Lemma append_nonempty_l (a b : string) : a <> "" -> a ++ b <> "".
Proof. destruct a; [congruence | discriminate]. Qed.

Lemma append_nonempty_r (a b : string) : b <> "" -> a ++ b <> "".
Proof. destruct a; [trivial | discriminate]. Qed.

Lemma group_nonempty (s : string) : s <> "" -> JS.group s <> "".
Proof. destruct s; [congruence | discriminate]. Qed.

Lemma toLocaleString_nonempty (q : Q) : JS.toLocaleString q <> "".
Proof.
  unfold JS.toLocaleString.
  apply append_nonempty_r, append_nonempty_l, group_nonempty, decimal_nonempty.
Qed.

Lemma toFixed2_nonempty (q : Q) : JS.toFixed2 q <> "".
Proof.
  unfold JS.toFixed2.
  apply append_nonempty_r, append_nonempty_l, decimal_nonempty.
Qed.

Lemma decimal_head (z : Z) :
  exists c r, JS.decimal z = String c r /\ c <> "N"%char.
Proof.
  unfold JS.decimal.
  destruct (Z.to_N z) as [|p]; [do 2 eexists; split; [reflexivity|discriminate]|].
  simpl. pose proof (DecimalPos.Unsigned.to_uint_nonnil p) as H.
  destruct (Pos.to_uint p); try congruence;
    do 2 eexists; (split; [reflexivity|discriminate]).
Qed.

Lemma toLocaleString_not_NA (q : Q) : JS.toLocaleString q <> "N/A".
Proof.
  unfold JS.toLocaleString, JS.minus.
  destruct (decimal_head (JS.roundScaled q 1000 / 1000)) as (c & r & Hd & Hc).
  rewrite Hd. destruct (Qnum q <? 0)%Z; simpl; [discriminate|].
  intros H. injection H as H _. congruence.
Qed.

Lemma toFixed2_not_NA (q : Q) : JS.toFixed2 q <> "N/A".
Proof.
  unfold JS.toFixed2, JS.minus.
  destruct (decimal_head (JS.roundScaled q 100 / 100)) as (c & r & Hd & Hc).
  rewrite Hd. destruct (Qnum q <? 0)%Z; simpl; [discriminate|].
  intros H. injection H as H _. congruence.
Qed.

(** C9, as stated, fails: the record the extractor builds for a page
    without any of the three labels has the value [0] in each field, and its
    block shows "0", "0.00" and "0", not "N/A". *)
Lemma C9_zero_is_rendered :
  let c := enrich (stub (mkCreator "A" "https://time.fun/a"))
                  (mkDetailPage Absent Absent Absent) in
  minutesPurchased c = Some 0 /\ pricePerMinute c = Some 0
  /\ marketCap c = Some 0
  /\ Report.minutesLine c = "Minutes Purchased: 0" ++ nl
  /\ Report.priceLine c = "Price per Minute: $0.00" ++ nl
  /\ Report.marketCapLine c = "Market Cap: $0" ++ nl
  /\ Report.minutesLine c <> "Minutes Purchased: N/A" ++ nl.
Proof.
  repeat split. intros H. vm_compute in H. discriminate.
Qed.

(** C9 (amended): in every block, minutes purchased is shown
    thousands-grouped, price per minute with two decimals and market cap
    thousands-grouped whenever the field holds a number, the number [0]
    included ("0", "0.00", "0"); "N/A" is shown exactly when the field is
    missing or [null]. *)
Theorem C9_fields_rendered (c : CreatorDetails) :
  Report.block c
  = "Creator: " ++ name (creator c) ++ nl
    ++ "URL: " ++ url (creator c) ++ nl
    ++ ("Minutes Purchased: "
        ++ shown JS.toLocaleString (minutesPurchased c) ++ nl)
    ++ ("Price per Minute: $" ++ shown JS.toFixed2 (pricePerMinute c) ++ nl)
    ++ ("Market Cap: $" ++ shown JS.toLocaleString (marketCap c) ++ nl)
    ++ JS.repeat "-" 50 ++ nl
  /\ (forall v : Q, JS.toLocaleString v <> "N/A" /\ JS.toFixed2 v <> "N/A")
  /\ JS.toLocaleString 0 = "0" /\ JS.toFixed2 0 = "0.00"
  /\ JS.toLocaleString 1234567 = "1,234,567".
Proof.
  split; [|split; [|repeat split]].
  - unfold Report.block, Report.minutesLine, Report.priceLine,
      Report.marketCapLine, shown.
    destruct c as [cr [m|] [p|] [k|]]; cbn [minutesPurchased pricePerMinute
      marketCap option_map];
      rewrite ?orString_nonempty
        by (apply toLocaleString_nonempty || apply toFixed2_nonempty);
      reflexivity.
  - intros v. split; [apply toLocaleString_not_NA | apply toFixed2_not_NA].
Qed.

(** ** The enrichment of one partition *)

Lemma advance_0 (w : World) : advance 0 w = w.
Proof. now destruct w. Qed.

Lemma advance_tick (n : nat) (w : World) :
  advance n (snd (tick w)) = advance (S n) w.
Proof. unfold advance, tick; simpl. f_equal. lia. Qed.

Lemma scrapeCreatorDetails_eq (E : Engine) (c : CreatorDetails) (w : World) :
  scrapeCreatorDetails E c w
  = (match attempt E (ticks w) c with
     | Some d => Ok d
     | None => Throw EngineError
     end, snd (tick w)).
Proof.
  unfold scrapeCreatorDetails, attempt, bind, tick; simpl.
  now destruct (creatorPage E (ticks w) (url (creator c))).
Qed.

Lemma scrapeCreators_eq (E : Engine) (cs acc : list CreatorDetails) (w : World) :
  scrapeCreators E cs acc w
  = (Ok (acc ++ enriched E (ticks w) cs)%list, advance (List.length cs) w).
Proof.
  revert acc w. induction cs as [|c r IH]; intros acc w.
  - simpl. unfold ret. now rewrite app_nil_r, advance_0.
  - cbn [scrapeCreators enriched List.length].
    unfold bind at 1. unfold tryCatch, bind at 1.
    rewrite scrapeCreatorDetails_eq.
    destruct (attempt E (ticks w) c) as [d|]; unfold ret; rewrite IH;
      rewrite advance_tick; simpl; [now rewrite <- app_assoc | reflexivity].
Qed.

Lemma scrapePartitions_step (E : Engine) (cat : string)
      (stubs : list CreatorDetails) (rest : Dir) (w : World) :
  scrapePartitions E ((cat, stubs) :: rest) w
  = scrapePartitions E rest
      (writeFile "creators-details" (fileName cat)
                 (enriched E (ticks w) stubs)
                 (advance (List.length stubs) w)).
Proof.
  cbn [scrapePartitions]. unfold bind at 1. rewrite scrapeCreators_eq.
  reflexivity.
Qed.

Lemma enriched_subsequence (E : Engine) (t : nat) (l : list CreatorDetails) :
  Subsequence (map creator (enriched E t l)) (map creator l).
Proof.
  revert t. induction l as [|c r IH]; intros t; simpl; [constructor|].
  unfold attempt.
  destruct (creatorPage E t (url (creator c))); simpl;
    try (apply sub_skip, IH).
  unfold enrich. destruct (detailsOfPage p) as [[? ?] ?]. simpl.
  apply sub_keep, IH.
Qed.

Lemma attempt_creator (E : Engine) (t : nat) (c d : CreatorDetails) :
  attempt E t c = Some d -> creator d = creator c.
Proof.
  unfold attempt. destruct (creatorPage E t (url (creator c))); try discriminate.
  intros [= <-]. unfold enrich. now destruct (detailsOfPage p) as [[? ?] ?].
Qed.

(** When every extraction succeeds, every stub has its record. *)
Lemma enriched_all (E : Engine) (t : nat) (l : list CreatorDetails) :
  (forall j c, nth_error l j = Some c -> attempt E (t + j) c <> None) ->
  map creator (enriched E t l) = map creator l
  /\ forall j c d, nth_error l j = Some c -> attempt E (t + j) c = Some d ->
                   In d (enriched E t l).
Proof.
  revert t. induction l as [|c r IH]; intros t H.
  - split; [reflexivity|]. intros [|j] ? ? ?; discriminate.
  - simpl. pose proof (H 0%nat c eq_refl) as H0. rewrite Nat.add_0_r in H0.
    destruct (attempt E t c) as [d|] eqn:Ha; [|congruence].
    destruct (IH (S t)) as [IHm IHi].
    { intros j c' Hj. specialize (H (S j) c' Hj).
      now rewrite Nat.add_succ_r in H. }
    split.
    + simpl. now rewrite IHm, (attempt_creator _ _ _ _ Ha).
    + intros [|j] c' d' Hj Hd.
      * injection Hj as <-. rewrite Nat.add_0_r in Hd.
        left. congruence.
      * right. apply (IHi j c' d' Hj). now rewrite Nat.add_succ_r in Hd.
Qed.

(** When the extraction fails for the stub at position [i] only, its
    record is the one that is missing. *)
Lemma enriched_one_failure (E : Engine) (t : nat) (l : list CreatorDetails)
      (i : nat) :
  (i < List.length l)%nat ->
  (forall j c, nth_error l j = Some c ->
               (attempt E (t + j) c = None <-> j = i)) ->
  map creator (enriched E t l)
  = map creator (firstn i l ++ skipn (S i) l)%list
  /\ forall j c d, nth_error l j = Some c -> attempt E (t + j) c = Some d ->
                   In d (enriched E t l).
Proof.
  revert t i. induction l as [|c r IH]; intros t i Hi H; [simpl in Hi; lia|].
  pose proof (H 0%nat c eq_refl) as H0. rewrite Nat.add_0_r in H0.
  assert (Hr : forall j c', nth_error r j = Some c' ->
                 (attempt E (S t + j) c' = None <-> S j = i)).
  { intros j c' Hj. specialize (H (S j) c' Hj).
    now rewrite Nat.add_succ_r in H. }
  destruct i as [|i]; cbn [enriched].
  - rewrite (proj2 H0 eq_refl).
    destruct (enriched_all E (S t) r) as [Hm Hin].
    { intros j c' Hj Hn. apply (Hr j c' Hj) in Hn. discriminate. }
    split; [exact Hm|].
    intros [|j] c' d Hj Hd.
    + injection Hj as <-. rewrite Nat.add_0_r in Hd.
      rewrite (proj2 H0 eq_refl) in Hd. discriminate.
    + apply (Hin j c' d Hj). now rewrite Nat.add_succ_r in Hd.
  - destruct (attempt E t c) as [d0|] eqn:Ha;
      [|destruct H0 as [H0 _]; specialize (H0 eq_refl); discriminate].
    destruct (IH (S t) i) as [Hm Hin].
    { simpl in Hi. lia. }
    { intros j c' Hj. rewrite (Hr j c' Hj). split; intros; lia. }
    split.
    + simpl. now rewrite Hm, (attempt_creator _ _ _ _ Ha).
    + intros [|j] c' d Hj Hd.
      * injection Hj as <-. rewrite Nat.add_0_r in Hd. left. congruence.
      * right. apply (Hin j c' d Hj). now rewrite Nat.add_succ_r in Hd.
Qed.

Lemma lookup_mapSet {V : Type} (k : string) (v : V) (m : list (string * V)) :
  lookup k (JS.mapSet k v m) = Some v.
Proof.
  induction m as [|[k' v'] r IH]; simpl.
  - now rewrite String.eqb_refl.
  - destruct (String.eqb k k') eqn:Hk; simpl.
    + now rewrite String.eqb_refl.
    + now rewrite Hk.
Qed.

Lemma lookup_mapSet_other {V : Type} (k k' : string) (v : V)
      (m : list (string * V)) :
  k <> k' -> lookup k (JS.mapSet k' v m) = lookup k m.
Proof.
  intros Hne. induction m as [|[k0 v0] r IH]; simpl.
  - now apply String.eqb_neq in Hne as ->.
  - destruct (String.eqb k' k0) eqn:Hk; simpl.
    + apply String.eqb_eq in Hk as <-.
      now apply String.eqb_neq in Hne as ->.
    + now rewrite IH.
Qed.

Lemma readFile_writeFile (dir file : string) (content : list CreatorDetails)
      (w : World) :
  readFile dir file (writeFile dir file content w) = Some content.
Proof.
  unfold readFile, writeFile; simpl. rewrite String.eqb_refl.
  apply lookup_mapSet.
Qed.

Lemma readFile_writeFile_other (dir file name : string)
      (content : list CreatorDetails) (w : World) :
  name <> file ->
  readFile dir name (writeFile dir file content w) = readFile dir name w.
Proof.
  intros Hne. unfold readFile, writeFile; simpl. rewrite String.eqb_refl.
  rewrite lookup_mapSet_other by exact Hne.
  now destruct (dirs w dir).
Qed.

(** The loop over the partitions leaves alone the files that no partition
    is stored in. *)
Lemma scrapePartitions_keeps (E : Engine) (m : Dir) (w : World) (name : string) :
  (forall k v, In (k, v) m -> fileName k <> name) ->
  fst (scrapePartitions E m w) = Ok tt
  /\ readFile "creators-details" name (snd (scrapePartitions E m w))
     = readFile "creators-details" name w.
Proof.
  revert w. induction m as [|[k v] r IH]; intros w Hno.
  - now split.
  - rewrite scrapePartitions_step.
    match goal with
    | |- context [scrapePartitions E r ?w1] =>
        destruct (IH w1) as [Hok Hread]
    end.
    { intros k' v' Hin. apply (Hno k' v'). now right. }
    split; [exact Hok|]. rewrite Hread.
    rewrite readFile_writeFile_other; [reflexivity|].
    intros ->. exact (Hno k v (or_introl eq_refl) eq_refl).
Qed.

Lemma In_without {A : Type} (x : A) (l : list A) (i : nat) :
  In x (firstn i l ++ skipn (S i) l) ->
  exists j, j <> i /\ nth_error l j = Some x.
Proof.
  revert i. induction l as [|y r IH]; intros i H.
  - destruct i; simpl in H; contradiction.
  - destruct i as [|i]; simpl in H.
    + apply In_nth_error in H as [j Hj]. exists (S j). split; [lia | exact Hj].
    + destruct H as [<- | H].
      * exists 0%nat. split; [lia | reflexivity].
      * apply IH in H as (j & Hne & Hj). exists (S j). split; [lia | exact Hj].
Qed.

(** C4, as it is stated, fails when the stub partition holds an entity
    twice (the listing does not deduplicate): of the two visits of Ann's
    page the first one fails and the second one succeeds, so exactly one
    extraction fails and the detail partition has one record less than the
    stub partition, and yet it holds a record for Ann. *)
Lemma C4_duplicate_stub_keeps_record :
  let run :=
    scrapePartitions firstVisitFails [("Artists", [ann; ann])] emptyWorld in
  fst (scrapeCreatorDetails firstVisitFails ann emptyWorld) = Throw EngineError
  /\ fst (scrapeCreatorDetails firstVisitFails ann (advance 1 emptyWorld))
     = Ok (enrich ann emptyPage)
  /\ fst run = Ok tt
  /\ readFile "creators-details" "artists.json" (snd run)
     = Some [enrich ann emptyPage]
  /\ S (List.length [enrich ann emptyPage]) = List.length [ann; ann]
  /\ In (creator ann) (map creator [enrich ann emptyPage]).
Proof.
  cbv zeta. repeat split; try reflexivity. now left.
Qed.

(** C4, amended: the loop over a stub partition asks for every stub once
    and keeps the records of the extractions that return, in order; this
    list is what the stage stores for the category, and what the file holds
    when the loop over the partitions ends (if no later partition is stored
    in the same file).  Its identities are a subsequence of the stub
    partition's: records are dropped, never added.  If the extraction fails
    for exactly one stub, the detail partition has one record less than the
    stub partition; its identities are those of the stubs, in order, with
    that one occurrence left out; the record of every other stub is in it,
    with the identity of its stub; and no record has the identity of the
    failed entity, provided no other stub of the category has it. *)
Theorem C4_failed_extraction_drops_one
        (E : Engine) (cat : string) (stubs : list CreatorDetails)
        (rest : Dir) (w : World) :
  let details := enriched E (ticks w) stubs in
  let stored := writeFile "creators-details" (fileName cat) details
                          (advance (List.length stubs) w) in
  (forall (c : CreatorDetails) (w0 : World),
      scrapeCreatorDetails E c w0
      = (match attempt E (ticks w0) c with
         | Some d => Ok d
         | None => Throw EngineError
         end, advance 1 w0))
  /\ scrapeCreators E stubs [] w = (Ok details, advance (List.length stubs) w)
  /\ scrapePartitions E [(cat, stubs)] w = (Ok tt, stored)
  /\ scrapePartitions E ((cat, stubs) :: rest) w = scrapePartitions E rest stored
  /\ ((forall k v, In (k, v) rest -> fileName k <> fileName cat) ->
      fst (scrapePartitions E ((cat, stubs) :: rest) w) = Ok tt
      /\ readFile "creators-details" (fileName cat)
                  (snd (scrapePartitions E ((cat, stubs) :: rest) w))
         = Some details)
  /\ readFile "creators-details" (fileName cat) stored = Some details
  /\ Subsequence (map creator details) (map creator stubs)
  /\ forall (i : nat) (e : CreatorDetails),
      nth_error stubs i = Some e ->
      (forall j c, nth_error stubs j = Some c ->
                   (attempt E (ticks w + j) c = None <-> j = i)) ->
      S (List.length details) = List.length stubs
      /\ map creator details
         = map creator (firstn i stubs ++ skipn (S i) stubs)%list
      /\ (forall j c d, nth_error stubs j = Some c ->
                        attempt E (ticks w + j) c = Some d ->
                        In d details /\ creator d = creator c)
      /\ ((forall j c, nth_error stubs j = Some c -> j <> i ->
                       creator c <> creator e) ->
          ~ In (creator e) (map creator details)).
Proof.
  intros details stored.
  split; [intros c w0; apply scrapeCreatorDetails_eq|].
  split; [apply scrapeCreators_eq|].
  split; [apply (scrapePartitions_step E cat stubs [] w)|].
  split; [apply scrapePartitions_step|].
  split.
  { intros Hno. rewrite scrapePartitions_step. fold details. fold stored.
    destruct (scrapePartitions_keeps E rest stored (fileName cat) Hno)
      as [Hok Hread].
    split; [exact Hok|]. rewrite Hread. apply readFile_writeFile. }
  split; [apply readFile_writeFile|].
  split; [apply enriched_subsequence|].
  intros i e He Hone.
  assert (Hi : (i < List.length stubs)%nat).
  { apply nth_error_Some. congruence. }
  destruct (enriched_one_failure E (ticks w) stubs i Hi Hone) as [Hm Hin].
  fold details in Hm, Hin.
  assert (Hlen : S (List.length details) = List.length stubs).
  { rewrite <- (length_map creator details), Hm, length_map, length_app.
    rewrite length_firstn, length_skipn. lia. }
  repeat split.
  - exact Hlen.
  - exact Hm.
  - eapply Hin; eassumption.
  - eapply attempt_creator; eassumption.
  - intros Hdup Hc. rewrite Hm in Hc.
    apply in_map_iff in Hc as (c & Hce & Hc).
    apply In_without in Hc as (j & Hne & Hj).
    exact (Hdup j c Hj Hne Hce).
Qed.

(** Ann, Bob and Cyd, of whom Bob cannot be visited. *)
Lemma C4_failed_extraction_witness :
  let run := scrapePartitions bobFails [("Artists", [ann; bob; cyd])]
                              emptyWorld in
  let details := enriched bobFails 0 [ann; bob; cyd] in
  (fst run = Ok tt
   /\ readFile "creators-details" "artists.json" (snd run) = Some details)
  /\ S (List.length details) = 3%nat
  /\ map creator details = [creator ann; creator cyd]
  /\ ~ In (creator bob) (map creator details).
Proof.
  pose proof (C4_failed_extraction_drops_one bobFails "Artists"
                [ann; bob; cyd] [] emptyWorld) as H.
  destruct H as (_ & _ & _ & _ & Hrun & _ & _ & H).
  destruct (H 1%nat bob eq_refl) as (Hlen & Hm & _ & Hno).
  - intros j c Hj.
    do 3 (destruct j as [|j];
          [injection Hj as <-; vm_compute; split; intros;
           (discriminate || lia || reflexivity)|]).
    destruct j; discriminate.
  - intros run details. split; [|split; [exact Hlen|split; [exact Hm|]]].
    + apply Hrun. intros k v [].
    + apply Hno.
      intros j c Hj Hne.
      do 3 (destruct j as [|j];
            [injection Hj as <-; (discriminate || lia)|]).
      destruct j; discriminate.
Defined.

(** ** Listing *)

(** C5: what one round of the listing loop does.  When the wait for the
    grid resolves to [null], or the grid has no anchors, the category gets
    an empty partition and the loop goes on.  When the wait rejects, which
    is how the engine reports that no [.grid] showed up, the rejection
    leaves the loop: nothing is stored for this category or a later one, and
    the run fails ([gridTimeout]), where the [null] fallback of the same
    code would have given an empty partition ([gridNull]). *)
Theorem C5_listing_round
        (E : Engine) (label : string) (remoteId : Z) (r : list (string * Z))
        (total : nat) (w : World) :
  let w' := snd (tick w) in
  scrapeCategories E ((label, remoteId) :: r) total w
  = match categoryPage E (ticks w) remoteId with
    | NoHandle =>
        scrapeCategories E r total
                         (writeFile "creators" (fileName label) [] w')
    | Handle (Some links) =>
        scrapeCategories E r (total + List.length links)
          (writeFile "creators" (fileName label)
                     (map stub (map creatorOfAnchor links)) w')
    | _ => (Throw EngineError, w')
    end
  /\ fst (main gridTimeout emptyWorld) = Throw EngineError
  /\ dirs (snd (main gridTimeout emptyWorld)) "creators" = None
  /\ reportFile (snd (main gridTimeout emptyWorld)) = None
  /\ fst (main gridNull emptyWorld) = Ok (mkResult 0 "15")
  /\ map fst (match dirs (snd (main gridNull emptyWorld)) "creators" with
              | Some d => d
              | None => []
              end)
     = map (fun c => fileName (fst c)) categories
  /\ readFile "creators" "founders.json" (snd (main gridNull emptyWorld))
     = Some [].
Proof.
  split; [|repeat split].
  cbn [scrapeCategories]. unfold bind at 1. unfold listCreators, bind at 1.
  cbn [tick fst snd].
  destruct (categoryPage E (ticks w) remoteId) as [| | |[links|]];
    try reflexivity.
  - unfold ret, bind, saveCreatorsByCategory. simpl.
    now rewrite Nat.add_0_r.
  - unfold ret, bind, saveCreatorsByCategory. simpl.
    now rewrite length_map.
Qed.

(** ** Sessions of the browser engine *)

Lemma quiet_ret {A} (a : A) : quiet (ret a).
Proof. intros w. now split. Qed.

Lemma quiet_throw {A} (e : Error) : quiet (@throw A e).
Proof. intros w. now split. Qed.

Lemma quiet_tick : quiet tick.
Proof. intros w. now split. Qed.

Lemma quiet_bind {A B} (m : M A) (k : A -> M B) :
  quiet m -> (forall a, quiet (k a)) -> quiet (bind m k).
Proof.
  intros Hm Hk w. unfold bind.
  destruct (Hm w) as [Hs Hl]. destruct (m w) as [[a|e] w1]; simpl in *.
  - destruct (Hk a w1) as [Hs' Hl']. split; congruence.
  - now split.
Qed.

Lemma quiet_tryCatch {A} (body : M A) (handler : Error -> M A) :
  quiet body -> (forall e, quiet (handler e)) -> quiet (tryCatch body handler).
Proof.
  intros Hm Hk w. unfold tryCatch.
  destruct (Hm w) as [Hs Hl]. destruct (body w) as [[a|e] w1]; simpl in *.
  - now split.
  - destruct (Hk e w1) as [Hs' Hl']. split; congruence.
Qed.

Lemma quiet_openPage (E : Engine) : quiet (openPage E).
Proof.
  unfold openPage. apply quiet_bind; [apply quiet_tick|].
  intros t. destruct (newPage E t); [apply quiet_ret | apply quiet_throw].
Qed.

Lemma quiet_save (c d : string) (l : list CreatorDetails) :
  quiet (saveCreatorsByCategory c d l).
Proof. intros w. now split. Qed.

Lemma quiet_listCreators (E : Engine) (remoteId : Z) :
  quiet (listCreators E remoteId).
Proof.
  unfold listCreators. apply quiet_bind; [apply quiet_tick|].
  intros t. destruct (categoryPage E t remoteId) as [| | |[links|]];
    (apply quiet_ret || apply quiet_throw).
Qed.

Lemma quiet_scrapeCategories (E : Engine) (cs : list (string * Z)) (n : nat) :
  quiet (scrapeCategories E cs n).
Proof.
  revert n. induction cs as [|[label remoteId] r IH]; intros n; simpl.
  - apply quiet_ret.
  - apply quiet_bind; [apply quiet_listCreators|].
    intros creators. apply quiet_bind; [apply quiet_save|].
    intros _. apply IH.
Qed.

Lemma quiet_scrapeCreators (E : Engine) (cs acc : list CreatorDetails) :
  quiet (scrapeCreators E cs acc).
Proof. intros w. rewrite scrapeCreators_eq. now split. Qed.

Lemma quiet_scrapePartitions (E : Engine) (m : Dir) :
  quiet (scrapePartitions E m).
Proof.
  induction m as [|[cat creators] r IH]; simpl.
  - apply quiet_ret.
  - apply quiet_bind; [apply quiet_scrapeCreators|].
    intros ds. apply quiet_bind; [apply quiet_save|].
    intros _. apply IH.
Qed.

Lemma quiet_readCreatorFiles : quiet readCreatorFiles.
Proof.
  intros w. unfold readCreatorFiles.
  now destruct (dirs w "creators").
Qed.

Lemma quiet_generateReadableReport (E : Engine) :
  quiet (generateReadableReport E).
Proof.
  unfold generateReadableReport.
  apply quiet_tryCatch; [|intros e; apply quiet_throw].
  intros w. destruct (dirs w "creators-details"); now split.
Qed.

(** [initializeBrowser] fails before the launch, or after it (and then
    leaves the session behind), or returns the new session. *)
Lemma initializeBrowser_cases (E : Engine) (w : World) :
  let r := initializeBrowser E w in
  let b := launched w in
  (fst r = Throw EngineError /\ sessions (snd r) = sessions w
   /\ launched (snd r) = b)
  \/ (fst r = Throw EngineError
      /\ sessions (snd r) = (sessions w ++ [Launch b])%list
      /\ launched (snd r) = S b)
  \/ (fst r = Ok b
      /\ sessions (snd r) = (sessions w ++ [Launch b])%list
      /\ launched (snd r) = S b).
Proof.
  unfold initializeBrowser, launchBrowser, openPage, bind, tick, ret, throw.
  simpl. destruct (launch E (ticks w)); simpl.
  - destruct (newPage E (S (ticks w))); simpl; auto.
  - auto.
Qed.

(** The sessions of a guarded block: those of its body between the launch
    and the close of its own session, unless [initializeBrowser] failed. *)
Lemma withBrowser_sessions {A B} (E : Engine) (pre : M B) (body : B -> M A)
      (Pb : nat -> Result A -> list Event -> Prop) (w : World) :
  quiet pre ->
  (forall x w2, exists trb,
        addsSessions (body x) w2 trb /\ Pb (launched w2) (fst (body x w2)) trb) ->
  let b := launched w in
  exists tr,
    addsSessions (withBrowser E pre body) w tr
    /\ (((tr = [] \/ tr = [Launch b])
         /\ (exists e, fst (withBrowser E pre body w) = Throw e)
         /\ (forall x w1, pre w = (Ok x, w1) ->
                          exists e, fst (initializeBrowser E w1) = Throw e))
        \/ exists trb,
            tr = (Launch b :: trb ++ [Close b])%list
            /\ Pb (S b) (fst (withBrowser E pre body w)) trb).
Proof.
  intros Hpre Hbody b. unfold addsSessions, withBrowser, tryCatch.
  destruct (Hpre w) as [Hs Hl]. destruct (pre w) as [[x|e] w1]; simpl in *.
  2:{ exists []. rewrite app_nil_r. split; [exact Hs|]. left.
      split; [now left|]. split; [eauto | intros ? ? [=]]. }
  pose proof (initializeBrowser_cases E w1) as Hi. simpl in Hi.
  destruct (initializeBrowser E w1) as [[b1|e] w2] eqn:Hinit; simpl in *.
  - destruct Hi as [(Hx & _) | [(Hx & _) | (Hx & Hs2 & Hl2)]];
      try discriminate.
    injection Hx as ->.
    destruct (Hbody x w2) as (trb & Hb & HP).
    unfold addsSessions, tryFinally, closeBrowser in *.
    destruct (body x w2) as [r w3]; simpl in *.
    exists (Launch b :: trb ++ [Close b])%list. split.
    + destruct r; simpl; rewrite Hb, Hs2, Hs, Hl; unfold b;
        now rewrite <- !app_assoc.
    + right. exists trb. split; [reflexivity|].
      rewrite Hl2, Hl in HP. now destruct r.
  - assert (Hthrow : forall x' w1', (Ok x, w1) = (Ok x', w1') ->
                       exists e', fst (initializeBrowser E w1') = Throw e').
    { intros x' w1' [= <- <-]. rewrite Hinit. simpl. eauto. }
    destruct Hi as [(_ & Hs2 & _) | [(_ & Hs2 & _) | (Hx & _)]];
      try discriminate.
    + exists []. rewrite app_nil_r. split; [congruence|]. left.
      split; [now left|]. split; [eauto | exact Hthrow].
    + exists [Launch b]. split; [unfold b; congruence|]. left.
      split; [now right|]. split; [eauto | exact Hthrow].
Qed.

(** The sessions of the enrichment stage. *)
Lemma stage_sessions (E : Engine) (w : World) :
  exists tr,
    addsSessions (scrapeAllCreatorDetails E) w tr
    /\ stageTrace (launched w) tr
    /\ (fst (scrapeAllCreatorDetails E w) = Ok tt ->
        tr = [Launch (launched w); Close (launched w)])
    /\ (forall files, dirs w "creators" = Some files ->
                      (exists b, fst (initializeBrowser E w) = Ok b) ->
                      tr = [Launch (launched w); Close (launched w)]).
Proof.
  unfold scrapeAllCreatorDetails.
  destruct (withBrowser_sessions E readCreatorFiles
              (fun creatorMap => openPage E ;;; scrapePartitions E creatorMap)
              (fun _ _ trb => trb = []) w quiet_readCreatorFiles)
    as (tr & Hadd & Hcase).
  { intros m w2. exists []. split; [|reflexivity].
    unfold addsSessions. rewrite app_nil_r.
    apply (quiet_bind (openPage E) (fun _ => scrapePartitions E m));
      [apply quiet_openPage | intros _; apply quiet_scrapePartitions]. }
  exists tr. split; [exact Hadd|].
  assert (Hinit : (tr = [] \/ tr = [Launch (launched w)]) ->
                  (forall x w1, readCreatorFiles w = (Ok x, w1) ->
                                exists e, fst (initializeBrowser E w1) = Throw e) ->
                  forall files, dirs w "creators" = Some files ->
                                (exists b, fst (initializeBrowser E w) = Ok b) ->
                                tr = [Launch (launched w); Close (launched w)]).
  { intros _ Hthrow files Hdir [b Hb].
    destruct (Hthrow (collect files []) w) as [e He].
    - unfold readCreatorFiles. now rewrite Hdir.
    - congruence. }
  destruct Hcase as [(Htr & (e & He) & Hthrow) | (trb & -> & ->)].
  - split; [destruct Htr as [-> | ->]; [now left | right; now left]|].
    split; [intros H; congruence | now apply Hinit].
  - split; [right; right; reflexivity|]. split; reflexivity.
Qed.

Lemma main_body_sessions (E : Engine) (w : World) :
  let body :=
    openPage E ;;;
    totalCreators <- scrapeCreatorCount E ;;
    scrapeAllCreatorDetails E ;;;
    generateReadableReport E ;;;
    now <- tick ;;
    ret (mkResult totalCreators (clock E now)) in
  exists tr,
    addsSessions body w tr
    /\ stageTrace (launched w) tr
    /\ ((exists r, fst (body w) = Ok r) ->
        tr = [Launch (launched w); Close (launched w)]).
Proof.
  intros body. unfold body, addsSessions, bind.
  destruct (quiet_openPage E w) as [Hs1 Hl1].
  destruct (openPage E w) as [[[]|e] w1]; simpl in *.
  2:{ exists []. rewrite app_nil_r. split; [exact Hs1|].
      split; [now left | intros [r Hr]; discriminate]. }
  destruct (quiet_scrapeCategories E categories 0 w1) as [Hs2 Hl2].
  fold (scrapeCreatorCount E) in Hs2, Hl2.
  destruct (scrapeCreatorCount E w1) as [[n|e] w2]; simpl in *.
  2:{ exists []. rewrite app_nil_r. split; [congruence|].
      split; [now left | intros [r Hr]; discriminate]. }
  destruct (stage_sessions E w2) as (tr & Hadd & Hst & Hok & _).
  unfold addsSessions in Hadd. rewrite Hl2, Hl1 in Hst, Hok.
  rewrite Hs2, Hs1 in Hadd.
  destruct (scrapeAllCreatorDetails E w2) as [[[]|e] w3]; simpl in *.
  2:{ exists tr. split; [exact Hadd|].
      split; [exact Hst | intros [r Hr]; discriminate]. }
  destruct (quiet_generateReadableReport E w3) as [Hs4 _].
  destruct (generateReadableReport E w3) as [[[]|e] w4]; simpl in *;
    exists tr; (split; [congruence|]); (split; [exact Hst|]);
    intros _; exact (Hok eq_refl).
Qed.

Lemma runTrace_balanced (b : nat) (tr : list Event) :
  runTrace b tr -> balanced [] tr = true /\ (acquired tr <= 2)%nat.
Proof.
  assert (Hne : Nat.eqb (S b) b = false) by (apply Nat.eqb_neq; lia).
  assert (Hne' : Nat.eqb b (S b) = false) by (apply Nat.eqb_neq; lia).
  intros [-> | [-> | [-> | [-> | ->]]]];
    (split; [|unfold acquired; simpl; lia]);
    repeat (cbn [balanced existsb filter negb andb orb];
            rewrite ?Nat.eqb_refl, ?Hne, ?Hne');
    reflexivity.
Qed.

(** C7, as stated, fails: a run that ends in [Done] has acquired two
    sessions, the second one while the first was open. *)
Lemma C7_two_sessions :
  fst (main quietEngine emptyWorld) = Ok (mkResult 0 "15")
  /\ sessions (snd (main quietEngine emptyWorld))
     = [Launch 0; Launch 1; Close 1; Close 0]
  /\ acquired (sessions (snd (main quietEngine emptyWorld))) <> 1%nat.
Proof.
  repeat split. intros H. vm_compute in H. discriminate.
Qed.

(** C7 (amended): over a run the driver acquires a session at pipeline
    start and the enrichment stage acquires a second one while the
    driver's is open.  A run that ends in [Done] has acquired exactly these
    two and has released each exactly once, the stage's first and the
    driver's at pipeline end.  On every exit path at most two sessions are
    acquired and none is released twice or before it is acquired; the
    driver's session is released at pipeline end whenever its
    [initializeBrowser] call has returned, and so is the stage's at the end
    of the stage. *)
Theorem C7_sessions_of_a_run (E : Engine) (w : World) :
  let b := launched w in
  (exists tr,
      sessions (snd (main E w)) = (sessions w ++ tr)%list
      /\ runTrace b tr
      /\ balanced [] tr = true
      /\ (acquired tr <= 2)%nat
      /\ ((exists r, fst (main E w) = Ok r) ->
          tr = [Launch b; Launch (S b); Close (S b); Close b])
      /\ ((exists b0, fst (initializeBrowser E w) = Ok b0) ->
          exists mid, tr = (Launch b :: mid ++ [Close b])%list
                      /\ stageTrace (S b) mid))
  /\ (forall files,
         dirs w "creators" = Some files ->
         (exists b0, fst (initializeBrowser E w) = Ok b0) ->
         sessions (snd (scrapeAllCreatorDetails E w))
         = (sessions w ++ [Launch b; Close b])%list).
Proof.
  intros b. split.
  - unfold main.
    destruct (withBrowser_sessions E (ret tt)
                (fun _ : unit =>
                   openPage E ;;;
                   totalCreators <- scrapeCreatorCount E ;;
                   scrapeAllCreatorDetails E ;;;
                   generateReadableReport E ;;;
                   now <- tick ;;
                   ret (mkResult totalCreators (clock E now)))
                (fun b' r trb =>
                   stageTrace b' trb
                   /\ ((exists a, r = Ok a) -> trb = [Launch b'; Close b']))
                w (quiet_ret tt))
      as (tr & Hadd & Hcase).
    { intros _ w2.
      destruct (main_body_sessions E w2) as (trb & Ha & Hst & Hok).
      exists trb. auto. }
    exists tr. split; [exact Hadd|]. fold b in Hcase.
    assert (Hrun : runTrace b tr).
    { destruct Hcase as [(Htr & _) | (trb & -> & Hst & _)].
      - destruct Htr as [-> | ->]; [now left | right; now left].
      - destruct Hst as [-> | [-> | ->]]; unfold runTrace; simpl; auto 6. }
    split; [exact Hrun|].
    destruct (runTrace_balanced b tr Hrun) as [Hbal Hacq].
    split; [exact Hbal|]. split; [exact Hacq|].
    destruct Hcase as [(Htr & (e & He) & Hthrow) | (trb & -> & Hst & Hok)].
    + split; [intros [r Hr]; congruence|].
      intros [b0 Hb0]. destruct (Hthrow tt w eq_refl) as [e' He'].
      congruence.
    + split.
      * intros Hr. now rewrite (Hok Hr).
      * intros _. exists trb. now split.
  - intros files Hdir Hinit.
    destruct (stage_sessions E w) as (tr & Hadd & _ & _ & Hclosed).
    unfold addsSessions in Hadd.
    now rewrite Hadd, (Hclosed files Hdir Hinit).
Qed.

(** A run of [quietEngine] from the empty working directory. *)
Lemma C7_sessions_witness :
  sessions (snd (main quietEngine emptyWorld))
  = [Launch 0; Launch 1; Close 1; Close 0]
  /\ sessions (snd (scrapeAllCreatorDetails quietEngine leftOver))
     = [Launch 0; Close 0].
Proof.
  destruct (C7_sessions_of_a_run quietEngine emptyWorld)
    as [(tr & Hs & _ & _ & _ & Hok & Hdriver) _].
  destruct (C7_sessions_of_a_run quietEngine leftOver) as [_ Hstage].
  split.
  - rewrite Hs. simpl.
    destruct Hdriver as (mid & Hmid & _); [exists 0%nat; reflexivity|].
    apply Hok. exists (mkResult 0 "15"). reflexivity.
  - rewrite (Hstage [("artists.json", [ann; bob])] eq_refl);
      [reflexivity | exists 0%nat; reflexivity].
Defined.

(** ** The report stage *)

Lemma generateReadableReport_eq (E : Engine) (w : World) (files : Dir) :
  dirs w "creators-details" = Some files ->
  generateReadableReport E w
  = (Ok tt,
     writeReport (Report.render (clock E (ticks w)) (Report.readAll files))
                 (snd (tick w))).
Proof.
  intros H. unfold generateReadableReport, tryCatch. now rewrite H.
Qed.

Lemma length_append (a b : string) :
  String.length (a ++ b) = (String.length a + String.length b)%nat.
Proof. induction a as [|c a IH]; simpl; [reflexivity | now rewrite IH]. Qed.

Lemma append_cancel_r (a b c : string) : a ++ c = b ++ c -> a = b.
Proof.
  revert b. induction a as [|x a IH]; intros [|y b] H.
  - reflexivity.
  - apply (f_equal String.length) in H. simpl in H.
    rewrite length_append in H. lia.
  - apply (f_equal String.length) in H. simpl in H.
    rewrite length_append in H. lia.
  - simpl in H. injection H as -> H. f_equal. now apply IH.
Qed.

Lemma append_cancel_l (a b c : string) : a ++ b = a ++ c -> b = c.
Proof.
  induction a as [|x a IH]; simpl; [trivial|].
  intros H. injection H as H. now apply IH.
Qed.

Lemma preamble_inj (now now' rest : string) :
  Report.preamble now ++ rest = Report.preamble now' ++ rest -> now = now'.
Proof.
  intros H. apply append_cancel_r in H.
  unfold Report.preamble in H.
  do 3 apply append_cancel_l in H.
  now apply append_cancel_r in H.
Qed.

(** C2, as stated, fails: the report carries the time at which it was
    generated, so two runs over the same partitions at different times
    write different texts. *)
Lemma C2_reports_differ :
  let w1 := snd (generateReadableReport quietEngine detailsOnly) in
  let w2 := snd (generateReadableReport quietEngine w1) in
  dirs w1 "creators-details" = dirs detailsOnly "creators-details"
  /\ reportFile w1 <> reportFile w2.
Proof.
  split; [reflexivity|]. intros H. vm_compute in H. discriminate.
Qed.

(** C2 (amended): the report stage leaves the detail partitions as they
    are, and the text it writes is the [Generated on] line followed by a
    text that is a function of the partitions alone.  Two runs over the same
    partitions write byte-identical reports exactly when they print the same
    time stamp. *)
Theorem C2_report_of_partitions_and_clock
        (E : Engine) (w : World) (files : Dir) :
  dirs w "creators-details" = Some files ->
  let w1 := snd (generateReadableReport E w) in
  let w2 := snd (generateReadableReport E w1) in
  dirs w1 "creators-details" = Some files
  /\ dirs w2 "creators-details" = Some files
  /\ reportFile w1
     = Some (Report.preamble (clock E (ticks w))
               ++ reportBody (Report.readAll files))
  /\ reportFile w2
     = Some (Report.preamble (clock E (ticks w1))
               ++ reportBody (Report.readAll files))
  /\ (reportFile w2 = reportFile w1
      <-> clock E (ticks w1) = clock E (ticks w)).
Proof.
  intros H w1 w2.
  assert (H1 : dirs w1 "creators-details" = Some files).
  { unfold w1. now rewrite (generateReadableReport_eq E w files H). }
  assert (R1 : reportFile w1
               = Some (Report.preamble (clock E (ticks w))
                         ++ reportBody (Report.readAll files))).
  { unfold w1. rewrite (generateReadableReport_eq E w files H). simpl.
    now rewrite render_eq. }
  assert (R2 : reportFile w2
               = Some (Report.preamble (clock E (ticks w1))
                         ++ reportBody (Report.readAll files))).
  { unfold w2. rewrite (generateReadableReport_eq E w1 files H1). simpl.
    now rewrite render_eq. }
  split; [exact H1|]. split.
  { unfold w2. now rewrite (generateReadableReport_eq E w1 files H1). }
  split; [exact R1|]. split; [exact R2|].
  rewrite R1, R2. split.
  - intros Heq.
    apply preamble_inj with (rest := reportBody (Report.readAll files)).
    congruence.
  - now intros ->.
Qed.

(** Two runs while the clock stands still. *)
Lemma C2_report_witness :
  reportFile (snd (generateReadableReport frozenClock
                     (snd (generateReadableReport frozenClock detailsOnly))))
  = reportFile (snd (generateReadableReport frozenClock detailsOnly)).
Proof.
  apply (C2_report_of_partitions_and_clock frozenClock detailsOnly
           [("artists.json", [enrich ann emptyPage])] eq_refl).
  reflexivity.
Defined.

(** ** The enrichment stage reads the directory *)

Lemma mapSet_In_inv {V : Type} (k k' : string) (v v' : V)
      (m : list (string * V)) :
  In (k, v) (JS.mapSet k' v' m) -> (k, v) = (k', v') \/ In (k, v) m.
Proof.
  induction m as [|[k0 v0] r IH]; simpl.
  - intros [H|[]]; auto.
  - destruct (String.eqb k' k0); simpl.
    + intros [H|H]; auto.
    + intros [H|H]; auto. destruct (IH H); auto.
Qed.

Lemma mapSet_In_same {V : Type} (k : string) (v : V) (m : list (string * V)) :
  In (k, v) (JS.mapSet k v m).
Proof.
  induction m as [|[k0 v0] r IH]; simpl; [now left|].
  destruct (String.eqb k k0); simpl; auto.
Qed.

Lemma mapSet_In_other {V : Type} (k k' : string) (v v' : V)
      (m : list (string * V)) :
  k <> k' -> In (k, v) m -> In (k, v) (JS.mapSet k' v' m).
Proof.
  intros Hne. induction m as [|[k0 v0] r IH]; simpl; [tauto|].
  destruct (String.eqb_spec k' k0) as [<-|Hk]; simpl.
  - intros [H|H]; [congruence | now right].
  - intros [H|H]; [now left | right; now apply IH].
Qed.

(** The keys of [creatorMap] come from the [.json] files of the listing. *)
Lemma collect_In (files m0 : Dir) (k : string) (v : list CreatorDetails) :
  In (k, v) (collect files m0) ->
  In (k, v) m0
  \/ exists f, In (f, v) files /\ JS.endsWith ".json" f = true
               /\ k = categoryOf f.
Proof.
  revert m0. induction files as [|[f c] r IH]; intros m0 H; simpl in H.
  - now left.
  - destruct (JS.endsWith ".json" f) eqn:Hf.
    + apply IH in H as [H | (f' & Hin & Hj & Hk)].
      * apply mapSet_In_inv in H as [H | H]; [|now left].
        injection H as -> ->. right. exists f. simpl. auto.
      * right. exists f'. simpl. auto.
    + apply IH in H as [H | (f' & Hin & Hj & Hk)]; [now left|].
      right. exists f'. simpl. auto.
Qed.

Lemma collect_keeps (files m0 : Dir) (file : string)
      (stubs : list CreatorDetails) :
  (forall f c, In (f, c) files -> JS.endsWith ".json" f = true ->
               categoryOf f = categoryOf file -> c = stubs) ->
  In (categoryOf file, stubs) m0
  \/ (In (file, stubs) files /\ JS.endsWith ".json" file = true) ->
  In (categoryOf file, stubs) (collect files m0).
Proof.
  revert m0. induction files as [|[f c] r IH]; intros m0 Hu H; simpl.
  - destruct H as [H | [[] _]]. exact H.
  - fold (categoryOf f).
    assert (Hu' : forall f c, In (f, c) r -> JS.endsWith ".json" f = true ->
                              categoryOf f = categoryOf file -> c = stubs).
    { intros f' c' Hin. apply Hu. now right. }
    destruct (JS.endsWith ".json" f) eqn:Hf.
    + apply IH; [exact Hu'|].
      destruct (String.eqb_spec (categoryOf file) (categoryOf f)) as [Hk|Hk].
      * left. rewrite (Hu f c (or_introl eq_refl) Hf (eq_sym Hk)), <- Hk.
        apply mapSet_In_same.
      * destruct H as [H | [[H | H] Hj]].
        -- left. now apply mapSet_In_other.
        -- injection H as -> ->. congruence.
        -- right. auto.
    + apply IH; [exact Hu'|].
      destruct H as [H | [[H | H] Hj]]; auto.
      injection H as -> ->. congruence.
Qed.

Lemma dirs_writeFile_other (dir d file : string)
      (content : list CreatorDetails) (w : World) :
  d <> dir -> dirs (writeFile dir file content w) d = dirs w d.
Proof.
  intros Hne. unfold writeFile; simpl.
  now apply String.eqb_neq in Hne as ->.
Qed.

Lemma targets_nil (name : string) (m : Dir) :
  targets name m = [] -> forall k v, In (k, v) m -> fileName k <> name.
Proof.
  intros H k v Hin Heq.
  assert (Hf : In (k, v) (targets name m)).
  { apply filter_In. split; [exact Hin|]. simpl. now apply String.eqb_eq. }
  rewrite H in Hf. contradiction.
Qed.

(** What the loop over the partitions leaves in [creators-details/]. *)
Lemma scrapePartitions_files (E : Engine) (m : Dir) (w : World) :
  exists w',
    scrapePartitions E m w = (Ok tt, w')
    /\ (forall d, d <> "creators-details" -> dirs w' d = dirs w d)
    /\ reportFile w' = reportFile w
    /\ (forall name,
           (forall k v, In (k, v) m -> fileName k <> name) ->
           readFile "creators-details" name w'
           = readFile "creators-details" name w)
    /\ (forall k v,
           In (k, v) m ->
           (forall k' v', In (k', v') m -> fileName k' = fileName k -> v' = v) ->
           exists t, readFile "creators-details" (fileName k) w'
                     = Some (enriched E t v)).
Proof.
  revert w. induction m as [|[k0 v0] r IH]; intros w.
  - exists w. repeat split; try reflexivity. intros k v [].
  - rewrite scrapePartitions_step.
    set (w1 := writeFile "creators-details" (fileName k0)
                         (enriched E (ticks w) v0)
                         (advance (List.length v0) w)).
    destruct (IH w1) as (w' & Hrun & Hd & Hr & Hkeep & Hset).
    exists w'. split; [exact Hrun|]. split; [|split; [|split]].
    + intros d Hne. rewrite (Hd d Hne). unfold w1.
      now rewrite dirs_writeFile_other.
    + now rewrite Hr.
    + intros name Hno. rewrite Hkeep.
      * unfold w1. rewrite readFile_writeFile_other; [reflexivity|].
        intros ->. exact (Hno k0 v0 (or_introl eq_refl) eq_refl).
      * intros k v Hin. exact (Hno k v (or_intror Hin)).
    + intros k v Hin Hu.
      destruct (targets (fileName k) r) as [|[k' v'] rest] eqn:Ht.
      * pose proof (targets_nil _ _ Ht) as Hno.
        destruct Hin as [Heq | Hin]; [|now destruct (Hno k v Hin)].
        injection Heq as <- <-. exists (ticks w).
        rewrite (Hkeep (fileName k0) Hno). apply readFile_writeFile.
      * assert (Hin' : In (k', v') (targets (fileName k) r)).
        { rewrite Ht. now left. }
        apply filter_In in Hin' as [Hin' Heq]. simpl in Heq.
        apply String.eqb_eq in Heq.
        assert (Hv : v' = v) by (apply (Hu k' v'); [now right | exact Heq]).
        subst v'.
        destruct (Hset k' v Hin') as (t & Hread).
        { intros k2 v2 Hin2 Heq2. apply (Hu k2 v2); [now right | congruence]. }
        exists t. now rewrite <- Heq.
Qed.

Lemma initializeBrowser_files (E : Engine) (w : World) :
  dirs (snd (initializeBrowser E w)) = dirs w
  /\ reportFile (snd (initializeBrowser E w)) = reportFile w.
Proof.
  unfold initializeBrowser, launchBrowser, openPage, bind, tick, ret, throw.
  simpl. destruct (launch E (ticks w)); simpl; [|now split].
  destruct (newPage E (S (ticks w))); simpl; now split.
Qed.

Lemma openPage_files (E : Engine) (w : World) :
  dirs (snd (openPage E w)) = dirs w.
Proof.
  unfold openPage, bind, tick, ret, throw. simpl.
  now destruct (newPage E (ticks w)).
Qed.

(** A stage that succeeds has run the loop over the [.json] files of
    [creators/], and then closed its session. *)
Lemma stage_files (E : Engine) (w : World) (files : Dir) :
  dirs w "creators" = Some files ->
  fst (scrapeAllCreatorDetails E w) = Ok tt ->
  exists w0 w' b,
    dirs w0 = dirs w
    /\ scrapePartitions E (collect files []) w0 = (Ok tt, w')
    /\ snd (scrapeAllCreatorDetails E w) = record (Close b) w'.
Proof.
  intros Hdir. unfold scrapeAllCreatorDetails, withBrowser, tryCatch.
  unfold readCreatorFiles. rewrite Hdir.
  destruct (initializeBrowser_files E w) as [Hd _].
  destruct (initializeBrowser E w) as [[b|e] w2]; simpl in *;
    [|discriminate].
  unfold tryFinally, bind.
  pose proof (openPage_files E w2) as Hd2.
  destruct (openPage E w2) as [[[]|e] w3]; simpl in *; [|discriminate].
  destruct (scrapePartitions_files E (collect files []) w3)
    as (w' & Hrun & _).
  rewrite Hrun. simpl. intros _.
  exists w3, w', b. split; [congruence|]. split; [exact Hrun | reflexivity].
Qed.

Lemma drop_append (a b : string) : JS.drop (String.length a) (a ++ b) = b.
Proof. induction a as [|c a IH]; simpl; [now destruct b | exact IH]. Qed.

Lemma endsWith_fileName (k : string) : JS.endsWith ".json" (fileName k) = true.
Proof.
  unfold JS.endsWith, fileName. rewrite length_append.
  apply andb_true_intro. split.
  - apply Nat.leb_le. lia.
  - rewrite Nat.add_sub, drop_append. reflexivity.
Qed.

Lemma lookup_In {V : Type} (k : string) (v : V) (m : list (string * V)) :
  lookup k m = Some v -> In (k, v) m.
Proof.
  induction m as [|[k' v'] r IH]; simpl; [discriminate|].
  destruct (String.eqb_spec k k') as [<-|Hne].
  - intros [= <-]. now left.
  - intros H. right. now apply IH.
Qed.

Lemma readAll_In (files : Dir) (file : string) (content : list CreatorDetails) :
  In (file, content) files -> JS.endsWith ".json" file = true ->
  In (mkFormatted (Report.title file) content) (Report.readAll files).
Proof.
  intros Hin Hj. induction files as [|[f c] r IH]; simpl in *; [contradiction|].
  destruct Hin as [Heq | Hin].
  - injection Heq as -> ->. rewrite Hj. now left.
  - destruct (JS.endsWith ".json" f); [right|]; now apply IH.
Qed.

Lemma occursIn_inside (s text before after : string) :
  occursIn s text -> occursIn s (before ++ text ++ after).
Proof.
  intros (b & a & ->). exists (before ++ b), (a ++ after).
  now rewrite !append_assoc.
Qed.

Lemma occursIn_after (s text before : string) :
  occursIn s text -> occursIn s (before ++ text).
Proof.
  intros (b & a & ->). exists (before ++ b), a. now rewrite !append_assoc.
Qed.

Lemma occursIn_before (s text after : string) :
  occursIn s text -> occursIn s (text ++ after).
Proof.
  intros (b & a & ->). exists b, (a ++ after). now rewrite !append_assoc.
Qed.

Lemma sections_In (d : FormattedCreatorDetails)
      (allData : list FormattedCreatorDetails) :
  In d allData ->
  occursIn (Report.header d ++ blocks (Report.sortedCreators (creators d)))
           (sections allData).
Proof.
  induction allData as [|d' r IH]; intros Hin; [contradiction|].
  destruct Hin as [-> | Hin]; cbn [sections].
  - exists "", (sections r). rewrite append_assoc. reflexivity.
  - rewrite <- append_assoc.
    rewrite <- (append_nil_r (sections r)).
    apply occursIn_inside, IH, Hin.
Qed.

Lemma body_includes (files : Dir) (file : string)
      (content : list CreatorDetails) :
  lookup file files = Some content -> JS.endsWith ".json" file = true ->
  occursIn (Report.header (mkFormatted (Report.title file) content)
              ++ blocks (Report.sortedCreators content))
           (reportBody (Report.readAll files)).
Proof.
  intros Hl Hj. unfold reportBody.
  pose proof (sections_In _ _ (readAll_In files file content
                                  (lookup_In _ _ _ Hl) Hj)) as Hs.
  cbn [creators] in Hs.
  do 5 apply occursIn_after. apply occursIn_before. exact Hs.
Qed.

Lemma report_includes (now : string) (files : Dir) (file : string)
      (content : list CreatorDetails) :
  lookup file files = Some content -> JS.endsWith ".json" file = true ->
  occursIn (Report.header (mkFormatted (Report.title file) content)
              ++ blocks (Report.sortedCreators content))
           (Report.render now (Report.readAll files)).
Proof.
  intros Hl Hj. rewrite render_eq.
  apply occursIn_after. now apply body_includes.
Qed.

(** C10, as it is stated, fails on [sameSlug]: the stage stores a
    partition under the slug of its category, so the partitions of
    [Data Analysis.json] and of [data-analysis.json] go to one file, and
    of the two [.json] files of [creators/] only the one that is listed last
    is in [creators-details/] when the stage ends; Ann's partition is
    persisted nowhere. *)
Lemma C10_same_slug_overwritten :
  let w1 := snd (scrapeAllCreatorDetails quietEngine sameSlug) in
  readFile "creators" "Data Analysis.json" sameSlug = Some [ann]
  /\ JS.endsWith ".json" "Data Analysis.json" = true
  /\ fst (scrapeAllCreatorDetails quietEngine sameSlug) = Ok tt
  /\ dirs w1 "creators-details"
     = Some [("data-analysis.json", [enrich bob emptyPage])]
  /\ forall (file : string) (t : nat),
      readFile "creators-details" file w1
      <> Some (enriched quietEngine t [ann]).
Proof.
  cbv zeta. repeat split; try reflexivity.
  intros file t.
  change (enriched quietEngine t [ann]) with [enrich ann emptyPage].
  change (readFile "creators-details" file
            (snd (scrapeAllCreatorDetails quietEngine sameSlug)))
    with (if String.eqb file "data-analysis.json"
          then Some [enrich bob emptyPage] else None).
  destruct (String.eqb file "data-analysis.json"); [|discriminate].
  intros H. assert (Hn : name (creator (enrich bob emptyPage))
                         = name (creator (enrich ann emptyPage)))
    by congruence.
  vm_compute in Hn. discriminate Hn.
Qed.

(** C10, amended: the enrichment stage takes its input from [creators/]
    alone.  For every world, however it came about, a stage that succeeds
    has enriched the stubs of every [.json] file of that directory and
    stored them in [creators-details/] under the slug of the file's name,
    whether or not the registry has such a category, provided no other
    [.json] file of [creators/] with other content is stored under the same
    slug; the files of [creators-details/] that no [.json] file of
    [creators/] maps to are left as they were; and the report that follows
    has a section for the partition. *)
Theorem C10_enrichment_follows_directory
        (E : Engine) (w : World) (files : Dir)
        (file : string) (stubs : list CreatorDetails) :
  dirs w "creators" = Some files ->
  In (file, stubs) files ->
  JS.endsWith ".json" file = true ->
  (forall f c, In (f, c) files -> JS.endsWith ".json" f = true ->
               fileName (categoryOf f) = fileName (categoryOf file) ->
               c = stubs) ->
  fst (scrapeAllCreatorDetails E w) = Ok tt ->
  let w1 := snd (scrapeAllCreatorDetails E w) in
  let target := fileName (categoryOf file) in
  (exists t,
      readFile "creators-details" target w1 = Some (enriched E t stubs)
      /\ fst (generateReadableReport E w1) = Ok tt
      /\ exists text,
          reportFile (snd (generateReadableReport E w1)) = Some text
          /\ occursIn
               (Report.header (mkFormatted (Report.title target)
                                           (enriched E t stubs))
                  ++ blocks (Report.sortedCreators (enriched E t stubs)))
               text)
  /\ (forall name,
         (forall f c, In (f, c) files -> JS.endsWith ".json" f = true ->
                      fileName (categoryOf f) <> name) ->
         readFile "creators-details" name w1
         = readFile "creators-details" name w).
Proof.
  intros Hdir Hin Hj Hu Hok w1 target.
  destruct (stage_files E w files Hdir Hok) as (w0 & w' & b & Hd0 & Hrun & Hw1).
  destruct (scrapePartitions_files E (collect files []) w0)
    as (w'' & Hrun' & _ & _ & Hkeep & Hset).
  rewrite Hrun in Hrun'. injection Hrun' as <-.
  assert (Hread : forall name,
             readFile "creators-details" name w1
             = readFile "creators-details" name w').
  { intros name. unfold w1. now rewrite Hw1. }
  assert (Hread0 : forall name,
             readFile "creators-details" name w0
             = readFile "creators-details" name w).
  { intros name. unfold readFile. now rewrite Hd0. }
  split.
  - destruct (Hset (categoryOf file) stubs) as (t & Ht).
    { apply collect_keeps; [|right; now split].
      intros f c Hf Hfj Hk. apply (Hu f c Hf Hfj). now rewrite Hk. }
    { intros k' v' Hin' Heq.
      apply collect_In in Hin' as [[] | (f & Hf & Hfj & ->)].
      exact (Hu f v' Hf Hfj Heq). }
    exists t. fold target in Ht. rewrite Hread. split; [exact Ht|].
    unfold readFile in Ht.
    assert (Hdd : dirs w1 "creators-details" = dirs w' "creators-details").
    { unfold w1. now rewrite Hw1. }
    destruct (dirs w' "creators-details") as [dfiles|] eqn:Hdf;
      [|discriminate].
    rewrite (generateReadableReport_eq E w1 dfiles Hdd). simpl.
    split; [reflexivity|]. eexists. split; [reflexivity|].
    apply report_includes; [exact Ht | apply endsWith_fileName].
  - intros name Hno. rewrite Hread, <- Hread0. apply Hkeep.
    intros k v Hin'.
    apply collect_In in Hin' as [[] | (f & Hf & Hfj & ->)].
    exact (Hno f v Hf Hfj).
Qed.

(** A partition [artists.json] left in [creators/], a category that the
    registry does not have: the stage enriches it, and so does a whole run. *)
Lemma C10_enrichment_witness :
  (exists t,
      readFile "creators-details" "artists.json"
               (snd (scrapeAllCreatorDetails bobFails leftOver))
      = Some (enriched bobFails t [ann; bob]))
  /\ readFile "creators-details" "artists.json" (snd (main bobFails leftOver))
     = Some [enrich ann emptyPage]
  /\ existsb (fun c => String.eqb (fileName (fst c)) "artists.json") categories
     = false.
Proof.
  split; [|split; reflexivity].
  destruct (C10_enrichment_follows_directory bobFails leftOver
              [("artists.json", [ann; bob])] "artists.json" [ann; bob])
    as [(t & Ht & _) _].
  - reflexivity.
  - now left.
  - reflexivity.
  - intros f c [H | []] _ _. now injection H as _ <-.
  - reflexivity.
  - exists t. exact Ht.
Defined.


(** * Further properties of the code *)

(** ** File names of the partition store *)

Lemma isSpace_lower (c : ascii) : JS.isSpace (JS.toLowerChar c) = JS.isSpace c.
Proof. destruct c as [[] [] [] [] [] [] [] []]; reflexivity. Qed.

Lemma isUpper_lower (c : ascii) : JS.isUpper (JS.toLowerChar c) = false.
Proof. destruct c as [[] [] [] [] [] [] [] []]; reflexivity. Qed.

Lemma toLowerChar_idem (c : ascii) :
  JS.toLowerChar (JS.toLowerChar c) = JS.toLowerChar c.
Proof. destruct c as [[] [] [] [] [] [] [] []]; reflexivity. Qed.

Lemma toLowerCase_idem (s : string) :
  JS.toLowerCase (JS.toLowerCase s) = JS.toLowerCase s.
Proof.
  induction s as [|c r IH]; simpl; [reflexivity|].
  now rewrite toLowerChar_idem, IH.
Qed.

Lemma hasUpper_lower (s : string) : hasUpper (JS.toLowerCase s) = false.
Proof.
  induction s as [|c r IH]; simpl; [reflexivity|].
  now rewrite isUpper_lower, IH.
Qed.

Lemma hasSpace_runs (b : bool) (s : string) :
  hasSpace (JS.replaceSpaceRuns "-" b s) = false.
Proof.
  revert b. induction s as [|c r IH]; intros b; simpl; [reflexivity|].
  destruct (JS.isSpace c) eqn:Hc.
  - destruct b; simpl; apply IH.
  - simpl. now rewrite Hc, IH.
Qed.

Lemma hasUpper_runs (b : bool) (s : string) :
  hasUpper s = false -> hasUpper (JS.replaceSpaceRuns "-" b s) = false.
Proof.
  revert b. induction s as [|c r IH]; intros b; simpl; [reflexivity|].
  intros H. apply orb_false_iff in H as [Hc Hr].
  destruct (JS.isSpace c).
  - destruct b; simpl; now apply IH.
  - simpl. now rewrite Hc, IH.
Qed.

Lemma runs_without_space (b : bool) (s : string) :
  hasSpace s = false -> JS.replaceSpaceRuns "-" b s = s.
Proof.
  revert b. induction s as [|c r IH]; intros b; simpl; [reflexivity|].
  intros H. apply orb_false_iff in H as [Hc Hr].
  rewrite Hc. now rewrite IH.
Qed.

Lemma lower_runs (b : bool) (s : string) :
  JS.toLowerCase (JS.replaceSpaceRuns "-" b s)
  = JS.replaceSpaceRuns "-" b (JS.toLowerCase s).
Proof.
  revert b. induction s as [|c r IH]; intros b; simpl; [reflexivity|].
  rewrite isSpace_lower. destruct (JS.isSpace c).
  - destruct b; simpl; now rewrite IH.
  - simpl. now rewrite IH.
Qed.

Lemma runs_double_space (b : bool) (x y : string) :
  JS.replaceSpaceRuns "-" b (x ++ "  " ++ y)
  = JS.replaceSpaceRuns "-" b (x ++ " " ++ y).
Proof.
  revert b. induction x as [|c r IH]; intros b.
  - destruct b; reflexivity.
  - simpl. destruct (JS.isSpace c); [destruct b|]; now rewrite IH.
Qed.

Lemma lower_append (x y : string) :
  JS.toLowerCase (x ++ y) = JS.toLowerCase x ++ JS.toLowerCase y.
Proof.
  induction x as [|c r IH]; simpl; [reflexivity | now rewrite IH].
Qed.

Lemma slug_idem (label : string) : slug (slug label) = slug label.
Proof.
  unfold slug. rewrite lower_runs, toLowerCase_idem.
  apply runs_without_space, hasSpace_runs.
Qed.

(** X1: the slug under which a category is stored is in normal form: it
    has no white space and no upper-case letter, and taking the slug again
    changes nothing.  Labels that differ in letter case or in the length of
    a run of white space only have the same slug, hence the same file. *)
Theorem X1_slug_normal_form (label x y : string) :
  hasSpace (slug label) = false
  /\ hasUpper (slug label) = false
  /\ slug (slug label) = slug label
  /\ fileName (slug label) = fileName label
  /\ fileName (JS.toLowerCase label) = fileName label
  /\ fileName (x ++ "  " ++ y) = fileName (x ++ " " ++ y).
Proof.
  pose proof (slug_idem label) as Hidem.
  unfold fileName. repeat split.
  - apply hasSpace_runs.
  - apply hasUpper_runs, hasUpper_lower.
  - exact Hidem.
  - now rewrite Hidem.
  - unfold slug. now rewrite toLowerCase_idem.
  - unfold slug. rewrite !lower_append.
    change (JS.toLowerCase "  ") with "  ".
    change (JS.toLowerCase " ") with " ".
    now rewrite runs_double_space.
Qed.

Lemma substring_0_0 (s : string) : substring 0 0 s = "".
Proof. now destruct s. Qed.

Lemma prefix_json_suffix (s : string) :
  prefix ".json" (s ++ ".json") = true ->
  s = "" \/ prefix ".json" s = true.
Proof.
  intros H. apply prefix_correct in H.
  destruct s as [|c1 [|c2 [|c3 [|c4 [|c5 s]]]]]; [now left|right ..];
    simpl in H; try congruence.
  apply prefix_correct. simpl.
  rewrite substring_0_0 in *. exact H.
Qed.

Lemma replaceFirst_suffix (s : string) :
  occurs ".json" s = false -> JS.replaceFirst ".json" "" (s ++ ".json") = s.
Proof.
  induction s as [|c r IH]; intros H; [reflexivity|].
  cbn [occurs] in H. apply orb_false_iff in H as [Hp Hr].
  cbn [JS.replaceFirst append].
  change (String c (r ++ ".json")) with (String c r ++ ".json").
  destruct (prefix ".json" (String c r ++ ".json")) eqn:Hq.
  - apply prefix_json_suffix in Hq as [Hq | Hq]; congruence.
  - cbn [append]. now rewrite (IH Hr).
Qed.

(** X2: when the slug of a label does not contain [".json"], the category
    read back from the stub file is the slug, so the enrichment stores the
    detail partition under the very file name of the stub partition, and the
    report titles it by the slug with hyphens turned into spaces and the
    first letter in upper case. *)
Theorem X2_same_file_in_both_namespaces (label : string) :
  occurs ".json" (slug label) = false ->
  categoryOf (fileName label) = slug label
  /\ detailsFile label = fileName label
  /\ renderedTitle label
     = JS.capitalizeFirst (JS.replaceAllChar "-" " " (slug label)).
Proof.
  intros H.
  assert (Hc : categoryOf (fileName label) = slug label).
  { unfold categoryOf, fileName. now apply replaceFirst_suffix. }
  assert (Hd : detailsFile label = fileName label).
  { unfold detailsFile. fold (categoryOf (fileName label)). rewrite Hc.
    unfold fileName. now rewrite slug_idem. }
  split; [exact Hc|]. split; [exact Hd|].
  unfold renderedTitle, Report.title. rewrite Hd.
  fold (categoryOf (fileName label)). now rewrite Hc.
Qed.

(** The label with a dot of the registry. *)
Lemma X2_same_file_witness :
  detailsFile "Time.fun Team" = "time.fun-team.json".
Proof.
  destruct (X2_same_file_in_both_namespaces "Time.fun Team" eq_refl)
    as (_ & H & _).
  rewrite H. reflexivity.
Defined.


(** ** Thousands separators in the three fields *)


















(** ** Partitions that are sorted already *)

Lemma sort_sorted (l : list CreatorDetails) :
  StronglySorted descending l -> Report.sortedCreators l = l.
Proof.
  unfold Report.sortedCreators.
  induction 1 as [|x r Hs IH Hall]; [reflexivity|].
  cbn [JS.sort fold_right]. fold (JS.sort Report.byMarketCapDesc r).
  rewrite IH. destruct r as [|y r']; [reflexivity|].
  cbn [JS.insert]. apply Forall_inv in Hall.
  now apply compare_le in Hall as ->.
Qed.

(** X4: a partition that is stored in descending order of market cap is
    rendered in the stored order, and sorting a second time changes
    nothing. *)
Theorem X4_sorted_partition_kept (l : list CreatorDetails) :
  (StronglySorted descending l ->
   Report.sortedCreators l = l
   /\ blocks (Report.sortedCreators l) = blocks l)
  /\ Report.sortedCreators (Report.sortedCreators l) = Report.sortedCreators l.
Proof.
  split.
  - intros H. now rewrite (sort_sorted l H).
  - apply sort_sorted, sorted_descending.
Qed.

(** Bob (500) before Ann (100). *)
Lemma X4_sorted_partition_witness :
  let a := mkDetails (creator ann) None None (Some 100) in
  let b := mkDetails (creator bob) None None (Some 500) in
  Report.sortedCreators [b; a] = [b; a].
Proof.
  intros a b. destruct (X4_sorted_partition_kept [b; a]) as [H _].
  apply H. repeat constructor. unfold descending. vm_compute. discriminate.
Defined.

(** ** Files that are no partitions *)

Lemma readAll_filter (files : Dir) :
  Report.readAll (filter isJson files) = Report.readAll files.
Proof.
  induction files as [|[f c] r IH]; [reflexivity|].
  cbn [filter Report.readAll]. unfold isJson at 1. cbn [fst].
  destruct (JS.endsWith ".json" f) eqn:Hf.
  - cbn [Report.readAll]. now rewrite Hf, IH.
  - exact IH.
Qed.

(** X5: the report stage reads the files of [creators-details/] whose name
    ends in [.json] and no others: it has one category per such file, in
    listing order, titled after the file, and the text is the one of the
    directory without the other files. *)
Theorem X5_report_reads_json_files_only
        (E : Engine) (w : World) (files : Dir) :
  dirs w "creators-details" = Some files ->
  map category (Report.readAll files)
  = map (fun e => Report.title (fst e)) (filter isJson files)
  /\ map creators (Report.readAll files) = map snd (filter isJson files)
  /\ reportFile (snd (generateReadableReport E w))
     = Some (Report.render (clock E (ticks w))
                           (Report.readAll (filter isJson files))).
Proof.
  intros H. split; [|split].
  - induction files as [|[f c] r IH] in |- *; [reflexivity|].
    cbn [filter Report.readAll]. unfold isJson at 1. cbn [fst].
    destruct (JS.endsWith ".json" f); [cbn; f_equal|]; exact IH.
  - induction files as [|[f c] r IH] in |- *; [reflexivity|].
    cbn [filter Report.readAll]. unfold isJson at 1. cbn [fst].
    destruct (JS.endsWith ".json" f); [cbn; f_equal|]; exact IH.
  - rewrite (generateReadableReport_eq E w files H). cbn [snd writeReport
      reportFile]. now rewrite readAll_filter.
Qed.

(** The directory [mixedDetails]. *)
Lemma X5_report_witness :
  reportFile (snd (generateReadableReport quietEngine mixedDetails))
  = Some (Report.render "0" [mkFormatted "Artists" [enrich ann emptyPage]]).
Proof.
  destruct (X5_report_reads_json_files_only quietEngine mixedDetails
              [("notes.txt", [bob]); ("artists.json", [enrich ann emptyPage])]
              eq_refl) as (_ & _ & H).
  rewrite H. reflexivity.
Defined.

(** ** Stubs *)

Lemma trimStart_spaces (s : string) :
  allSpaces s = true -> JS.trimStart s = "".
Proof.
  induction s as [|c r IH]; simpl; [reflexivity|].
  intros H. apply andb_true_iff in H as [Hc Hr]. rewrite Hc. now apply IH.
Qed.

Lemma trimStart_nonempty (s : string) :
  allSpaces s = false -> JS.trimStart s <> "".
Proof.
  induction s as [|c r IH]; simpl; [discriminate|].
  destruct (JS.isSpace c); simpl; [exact IH | discriminate].
Qed.

Lemma allSpaces_append (x y : string) :
  allSpaces (x ++ y) = allSpaces x && allSpaces y.
Proof.
  induction x as [|c r IH]; simpl; [reflexivity|].
  now rewrite IH, andb_assoc.
Qed.

Lemma allSpaces_rev (s : string) : allSpaces (JS.rev s) = allSpaces s.
Proof.
  induction s as [|c r IH]; simpl; [reflexivity|].
  rewrite allSpaces_append, IH. simpl. rewrite andb_true_r. apply andb_comm.
Qed.

Lemma allSpaces_trimStart (s : string) :
  allSpaces (JS.trimStart s) = allSpaces s.
Proof.
  induction s as [|c r IH]; simpl; [reflexivity|].
  destruct (JS.isSpace c) eqn:Hc; simpl; [exact IH | now rewrite Hc].
Qed.

Lemma trim_spaces (s : string) : allSpaces s = true -> JS.trim s = "".
Proof.
  intros H. unfold JS.trim. now rewrite (trimStart_spaces s H).
Qed.

Lemma trim_nonempty (s : string) : allSpaces s = false -> JS.trim s <> "".
Proof.
  intros H. unfold JS.trim.
  assert (Hn : allSpaces (JS.trimStart (JS.rev (JS.trimStart s))) = false).
  { now rewrite allSpaces_trimStart, allSpaces_rev, allSpaces_trimStart. }
  intros He. rewrite <- allSpaces_rev, He in Hn. discriminate.
Qed.

(** X6: the stub made of an anchor has the anchor's [href] as its url and
    a name that is never empty: the trimmed text of the heading, or
    "Unknown Creator" when there is no heading or its text is white space
    only. *)
Theorem X6_stub_of_anchor (link : Anchor) :
  url (creatorOfAnchor link) = href link
  /\ name (creatorOfAnchor link) <> ""
  /\ name (creatorOfAnchor link)
     = match heading link with
       | None => "Unknown Creator"
       | Some h => if allSpaces h then "Unknown Creator" else JS.trim h
       end.
Proof.
  assert (Hname : name (creatorOfAnchor link)
                  = match heading link with
                    | None => "Unknown Creator"
                    | Some h => if allSpaces h then "Unknown Creator"
                                else JS.trim h
                    end).
  { unfold creatorOfAnchor. cbn [name].
    destruct (heading link) as [h|]; [|reflexivity].
    cbn [option_map]. destruct (allSpaces h) eqn:Hs.
    - now rewrite (trim_spaces h Hs).
    - now rewrite orString_nonempty by (now apply trim_nonempty). }
  split; [reflexivity|]. split; [|exact Hname].
  rewrite Hname. destruct (heading link) as [h|]; [|discriminate].
  destruct (allSpaces h) eqn:Hs; [discriminate | now apply trim_nonempty].
Qed.


(** ** The listing stage *)

Lemma scrapeCategories_step (E : Engine) (label : string) (remoteId : Z)
      (r : list (string * Z)) (total : nat) (w : World) :
  scrapeCategories E ((label, remoteId) :: r) total w
  = match listed E (ticks w) remoteId with
    | Some l =>
        scrapeCategories E r (total + List.length l)
          (writeFile "creators" (fileName label) (map stub l) (snd (tick w)))
    | None => (Throw EngineError, snd (tick w))
    end.
Proof.
  cbn [scrapeCategories]. unfold bind at 1. unfold listCreators, bind at 1.
  unfold listed. cbn [tick fst snd].
  destruct (categoryPage E (ticks w) remoteId) as [| | |[links|]];
    reflexivity.
Qed.

Lemma ticks_writeFile (d f : string) (c : list CreatorDetails) (w : World) :
  ticks (writeFile d f c w) = ticks w.
Proof. reflexivity. Qed.

(** The listing over [cs] up to its first rejected visit. *)
Lemma scrapeCategories_run (E : Engine) (cs : list (string * Z))
      (total : nat) (w : World) :
  NoDup (map registryFile cs) ->
  let w' := snd (scrapeCategories E cs total w) in
  (forall d, d <> "creators" -> dirs w' d = dirs w d)
  /\ reportFile w' = reportFile w
  /\ (forall name, ~ In name (map registryFile cs) ->
                   readFile "creators" name w' = readFile "creators" name w)
  /\ ((forall j c, nth_error cs j = Some c ->
                   listed E (ticks w + j) (snd c) <> None) ->
      fst (scrapeCategories E cs total w)
      = Ok (total + listedTotal E (ticks w) cs)%nat
      /\ ticks w' = (ticks w + List.length cs)%nat
      /\ forall j c l, nth_error cs j = Some c ->
                       listed E (ticks w + j) (snd c) = Some l ->
                       readFile "creators" (registryFile c) w'
                       = Some (map stub l))
  /\ (forall i c,
         nth_error cs i = Some c ->
         listed E (ticks w + i) (snd c) = None ->
         (forall j c', (j < i)%nat -> nth_error cs j = Some c' ->
                       listed E (ticks w + j) (snd c') <> None) ->
         fst (scrapeCategories E cs total w) = Throw EngineError
         /\ ticks w' = S (ticks w + i)
         /\ (forall j c' l, (j < i)%nat -> nth_error cs j = Some c' ->
                            listed E (ticks w + j) (snd c') = Some l ->
                            readFile "creators" (registryFile c') w'
                            = Some (map stub l))
         /\ (forall j c', (i <= j)%nat -> nth_error cs j = Some c' ->
                          readFile "creators" (registryFile c') w'
                          = readFile "creators" (registryFile c') w)).
Proof.
  revert total w. induction cs as [|[label remoteId] r IH]; intros total w Hnd.
  - cbn [scrapeCategories]. unfold ret. cbn [fst snd].
    split; [reflexivity|]. split; [reflexivity|]. split; [reflexivity|].
    split.
    + intros _. split; [f_equal; simpl; lia|]. split; [simpl; lia|].
      intros [|j] ? ? ?; discriminate.
    + intros [|i] ? ?; discriminate.
  - cbn [map] in Hnd. apply NoDup_cons_iff in Hnd as [Hnew Hnd].
    change (registryFile (label, remoteId)) with (fileName label) in Hnew.
    rewrite scrapeCategories_step.
    destruct (listed E (ticks w) remoteId) as [l|] eqn:Hl.
    + set (w1 := writeFile "creators" (fileName label) (map stub l)
                           (snd (tick w))).
      specialize (IH (total + List.length l)%nat w1 Hnd).
      cbv zeta in IH. destruct IH as (Hd & Hr & Hkeep & Hok & Hfail).
      assert (Ht1 : ticks w1 = S (ticks w)) by reflexivity.
      assert (Hhead : readFile "creators" (fileName label)
                        (snd (scrapeCategories E r (total + List.length l) w1))
                      = Some (map stub l)).
      { rewrite (Hkeep (fileName label) Hnew). apply readFile_writeFile. }
      cbv zeta. split; [|split; [|split; [|split]]].
      * intros d Hne. rewrite (Hd d Hne). unfold w1.
        now rewrite dirs_writeFile_other.
      * now rewrite Hr.
      * intros name Hno. rewrite Hkeep.
        -- unfold w1. rewrite readFile_writeFile_other; [reflexivity|].
           intros ->. apply Hno. now left.
        -- intros Hin. apply Hno. now right.
      * intros Hall. destruct Hok as (Hres & Htk & Hst).
        { intros j c Hj. rewrite Ht1.
          replace (S (ticks w) + j)%nat with (ticks w + S j)%nat by lia.
          exact (Hall (S j) c Hj). }
        split; [|split].
        -- rewrite Hres, Ht1. cbn [listedTotal]. rewrite Hl. f_equal. lia.
        -- rewrite Htk, Ht1. simpl. lia.
        -- intros [|j] c l' Hj Hlj.
           ++ injection Hj as <-. cbn [snd registryFile fst] in *.
              rewrite Nat.add_0_r in Hlj. rewrite Hl in Hlj.
              injection Hlj as <-. exact Hhead.
           ++ apply (Hst j c l' Hj). rewrite Ht1.
              now replace (S (ticks w) + j)%nat with (ticks w + S j)%nat by lia.
      * intros [|i] c Hi Hnone Hbefore.
        -- injection Hi as <-. cbn [snd] in Hnone.
           rewrite Nat.add_0_r in Hnone. congruence.
        -- destruct (Hfail i c Hi) as (Hres & Htk & Hst & Hrest).
           { rewrite Ht1.
             now replace (S (ticks w) + i)%nat with (ticks w + S i)%nat by lia. }
           { intros j c' Hlt Hj. rewrite Ht1.
             replace (S (ticks w) + j)%nat with (ticks w + S j)%nat by lia.
             apply (Hbefore (S j) c'); [lia | exact Hj]. }
           split; [exact Hres|]. split; [rewrite Htk, Ht1; lia|]. split.
           ++ intros [|j] c' l' Hlt Hj Hlj.
              ** injection Hj as <-. cbn [snd registryFile fst] in *.
                 rewrite Nat.add_0_r in Hlj. rewrite Hl in Hlj.
                 injection Hlj as <-. exact Hhead.
              ** apply (Hst j c' l'); [lia | exact Hj |]. rewrite Ht1.
                 now replace (S (ticks w) + j)%nat
                   with (ticks w + S j)%nat by lia.
           ++ intros [|j] c' Hle Hj; [lia|].
              rewrite (Hrest j c'); [|lia | exact Hj].
              unfold w1. rewrite readFile_writeFile_other; [reflexivity|].
              intros Heq. apply Hnew. rewrite <- Heq.
              apply in_map. simpl in Hj. now apply nth_error_In in Hj.
    + cbn [fst snd]. split; [reflexivity|]. split; [reflexivity|].
      split; [reflexivity|]. split.
      * intros Hall. exfalso.
        apply (Hall 0%nat (label, remoteId) eq_refl).
        cbn [snd]. now rewrite Nat.add_0_r.
      * intros [|i] c Hi Hnone Hbefore.
        -- split; [reflexivity|]. split; [cbn; lia|].
           split; [intros j c' l Hlt; lia | reflexivity].
        -- exfalso. apply (Hbefore 0%nat (label, remoteId)); [lia | reflexivity|].
           cbn [snd]. now rewrite Nat.add_0_r.
Qed.

Lemma registry_files_distinct : NoDup (map registryFile categories).
Proof.
  assert (H : nodup string_dec (map registryFile categories)
              = map registryFile categories) by (vm_compute; reflexivity).
  rewrite <- H. apply NoDup_nodup.
Qed.

(** X7: when no visit of a category page rejects, the listing stage returns
    the number of creators it has listed over the eight categories, and
    [creators/] holds for every category of the registry the file of its
    slug with exactly the stubs listed for it, in the order of the page. *)
Theorem X7_listing_stores_every_category (E : Engine) (w : World) :
  (forall j c, nth_error categories j = Some c ->
               listed E (ticks w + j) (snd c) <> None) ->
  let w' := snd (scrapeCreatorCount E w) in
  fst (scrapeCreatorCount E w) = Ok (listedTotal E (ticks w) categories)
  /\ ticks w' = (ticks w + 8)%nat
  /\ forall j c l, nth_error categories j = Some c ->
                   listed E (ticks w + j) (snd c) = Some l ->
                   readFile "creators" (registryFile c) w' = Some (map stub l).
Proof.
  intros Hall w'.
  destruct (scrapeCategories_run E categories 0 w registry_files_distinct)
    as (_ & _ & _ & Hok & _).
  destruct (Hok Hall) as (Hres & Htk & Hst).
  split; [exact Hres|]. split; [exact Htk | exact Hst].
Qed.

(** A run of the listing in which every page shows Ann. *)
Lemma X7_listing_witness :
  let E := mkEngine (fun _ => true) (fun _ => true)
             (fun _ _ => Handle (Some [mkAnchor (Some " Ann ")
                                                "https://time.fun/ann"]))
             (fun _ _ => Rendered emptyPage) (fun _ => "") in
  fst (scrapeCreatorCount E emptyWorld) = Ok 8%nat
  /\ readFile "creators" "data-analysis.json"
              (snd (scrapeCreatorCount E emptyWorld))
     = Some [ann].
Proof.
  intros E.
  destruct (X7_listing_stores_every_category E emptyWorld) as (Hres & _ & Hst).
  - intros j c Hj.
    do 8 (destruct j as [|j]; [injection Hj as <-; discriminate|]).
    destruct j; discriminate.
  - split; [exact Hres|].
    exact (Hst 6%nat ("Data Analysis", 9%Z) _ eq_refl eq_refl).
Defined.

(** X8: the listing stage stops at the first category whose visit rejects:
    it fails with the engine's error, the categories before it have their
    partitions stored, and the files of that category and of the later ones
    are as they were before the stage. *)
Theorem X8_listing_stops_at_first_rejection
        (E : Engine) (w : World) (i : nat) (c : string * Z) :
  nth_error categories i = Some c ->
  listed E (ticks w + i) (snd c) = None ->
  (forall j c', (j < i)%nat -> nth_error categories j = Some c' ->
                listed E (ticks w + j) (snd c') <> None) ->
  let w' := snd (scrapeCreatorCount E w) in
  fst (scrapeCreatorCount E w) = Throw EngineError
  /\ ticks w' = S (ticks w + i)
  /\ (forall j c' l, (j < i)%nat -> nth_error categories j = Some c' ->
                     listed E (ticks w + j) (snd c') = Some l ->
                     readFile "creators" (registryFile c') w'
                     = Some (map stub l))
  /\ (forall j c', (i <= j)%nat -> nth_error categories j = Some c' ->
                   readFile "creators" (registryFile c') w'
                   = readFile "creators" (registryFile c') w).
Proof.
  intros Hi Hnone Hbefore w'.
  destruct (scrapeCategories_run E categories 0 w registry_files_distinct)
    as (_ & _ & _ & _ & Hfail).
  exact (Hfail i c Hi Hnone Hbefore).
Qed.

(** The third category page cannot be loaded. *)
Lemma X8_listing_witness :
  let w' := snd (scrapeCreatorCount thirdFails emptyWorld) in
  fst (scrapeCreatorCount thirdFails emptyWorld) = Throw EngineError
  /\ readFile "creators" "influencers.json" w' = Some [ann]
  /\ readFile "creators" "personalities.json" w' = None
  /\ readFile "creators" "investors.json" w' = None.
Proof.
  destruct (X8_listing_stops_at_first_rejection thirdFails emptyWorld 2
              ("Personalities", 3%Z) eq_refl eq_refl)
    as (Hres & _ & Hbefore & Hafter).
  - intros j c' Hlt Hj.
    do 2 (destruct j as [|j]; [injection Hj as <-; discriminate|]). lia.
  - split; [exact Hres|]. split; [|split].
    + exact (Hbefore 1%nat ("Influencers", 2%Z) _ ltac:(lia) eq_refl eq_refl).
    + exact (Hafter 2%nat ("Personalities", 3%Z) ltac:(lia) eq_refl).
    + exact (Hafter 3%nat ("Investors", 4%Z) ltac:(lia) eq_refl).
Defined.


(** ** The enrichment stage *)

Lemma enriched_count (E : Engine) (t : nat) (l : list CreatorDetails) :
  (List.length (enriched E t l) + failures E t l = List.length l)%nat.
Proof.
  revert t. induction l as [|c r IH]; intros t; [reflexivity|].
  cbn [enriched failures List.length]. specialize (IH (S t)).
  destruct (attempt E t c); cbn [List.length]; lia.
Qed.

Lemma enriched_no_failure (E : Engine) (t : nat) (l : list CreatorDetails) :
  failures E t l = 0%nat -> map creator (enriched E t l) = map creator l.
Proof.
  revert t. induction l as [|c r IH]; intros t H; [reflexivity|].
  cbn [enriched failures] in *.
  destruct (attempt E t c) as [d|] eqn:Ha; [|discriminate].
  cbn [map]. now rewrite (attempt_creator _ _ _ _ Ha), (IH (S t)).
Qed.

(** X9: the loop over the creators of a category never fails, whatever
    happens on the creators' pages: it asks the engine once per stub, leaves
    the files alone, and returns as many records as extractions succeeded;
    when none fails, the records have the identities of the stubs, in
    order. *)
Theorem X9_partition_loop
        (E : Engine) (stubs acc : list CreatorDetails) (w : World) :
  let r := scrapeCreators E stubs acc w in
  let details := enriched E (ticks w) stubs in
  fst r = Ok (acc ++ details)%list
  /\ ticks (snd r) = (List.length stubs + ticks w)%nat
  /\ dirs (snd r) = dirs w
  /\ (List.length details + failures E (ticks w) stubs
      = List.length stubs)%nat
  /\ (failures E (ticks w) stubs = 0%nat ->
      map creator details = map creator stubs).
Proof.
  intros r details. unfold r. rewrite scrapeCreators_eq. cbn [fst snd].
  split; [reflexivity|]. split; [reflexivity|]. split; [reflexivity|].
  split; [apply enriched_count | apply enriched_no_failure].
Qed.

(** Ann and Cyd, whose pages load. *)
Lemma X9_partition_loop_witness :
  map creator (enriched bobFails 0 [ann; cyd]) = [creator ann; creator cyd].
Proof.
  destruct (X9_partition_loop bobFails [ann; cyd] [] emptyWorld)
    as (_ & _ & _ & _ & H).
  apply H. reflexivity.
Defined.

(** The outcome of the stage in terms of the directory and of the three
    calls that open the browser and its pages. *)
Lemma stage_result (E : Engine) (w : World) :
  fst (scrapeAllCreatorDetails E w)
  = match dirs w "creators" with
    | None => Throw FileSystemError
    | Some _ =>
        if launch E (ticks w) && newPage E (S (ticks w))
           && newPage E (S (S (ticks w)))
        then Ok tt else Throw EngineError
    end.
Proof.
  unfold scrapeAllCreatorDetails, withBrowser, tryCatch, readCreatorFiles.
  destruct (dirs w "creators") as [files|]; [|reflexivity].
  unfold initializeBrowser, launchBrowser, openPage, bind, tick, ret, throw.
  cbn [fst snd ticks].
  destruct (launch E (ticks w)); [|reflexivity].
  cbn [fst snd ticks record].
  destruct (newPage E (S (ticks w))); [|reflexivity].
  unfold tryFinally, closeBrowser. cbn [fst snd ticks record].
  destruct (newPage E (S (S (ticks w)))); [|reflexivity].
  match goal with
  | |- context [scrapePartitions E ?m ?w0] =>
      destruct (scrapePartitions_files E m w0) as (w' & Hrun & _)
  end.
  now rewrite Hrun.
Qed.

(** X10: a stage that succeeds has found [creators/], launched the browser
    and opened its two pages.  When [creators/] does not exist, the stage
    fails before it asks the engine for anything.  What happens on the
    creators' pages has no part in the outcome: on the same world, two
    engines that answer the launch and the two page creations alike give
    the same outcome. *)
Theorem X10_stage_outcome (E E' : Engine) (w : World) :
  (fst (scrapeAllCreatorDetails E w) = Ok tt ->
   dirs w "creators" <> None
   /\ launch E (ticks w) = true
   /\ newPage E (S (ticks w)) = true
   /\ newPage E (S (S (ticks w))) = true)
  /\ (dirs w "creators" = None ->
      scrapeAllCreatorDetails E w = (Throw FileSystemError, w))
  /\ (launch E' (ticks w) = launch E (ticks w) ->
      newPage E' (S (ticks w)) = newPage E (S (ticks w)) ->
      newPage E' (S (S (ticks w))) = newPage E (S (S (ticks w))) ->
      fst (scrapeAllCreatorDetails E' w) = fst (scrapeAllCreatorDetails E w)).
Proof.
  split; [|split].
  - rewrite stage_result.
    destruct (dirs w "creators") as [files|]; [|discriminate].
    destruct (launch E (ticks w)); [|discriminate].
    destruct (newPage E (S (ticks w))); [|discriminate].
    destruct (newPage E (S (S (ticks w)))); [|discriminate].
    intros _. repeat split; discriminate.
  - intros H. unfold scrapeAllCreatorDetails, withBrowser, tryCatch,
      readCreatorFiles. now rewrite H.
  - intros Hl Hp Hp'. rewrite !stage_result. now rewrite Hl, Hp, Hp'.
Qed.

(** The stage over [leftOver], where Bob's page does not load, and over an
    empty working directory. *)
Lemma X10_stage_witness :
  (dirs leftOver "creators" <> None
   /\ fst (scrapeAllCreatorDetails bobFails leftOver)
      = fst (scrapeAllCreatorDetails quietEngine leftOver))
  /\ scrapeAllCreatorDetails quietEngine emptyWorld
     = (Throw FileSystemError, emptyWorld).
Proof.
  destruct (X10_stage_outcome quietEngine bobFails leftOver) as (H & _ & H2).
  destruct (X10_stage_outcome quietEngine quietEngine emptyWorld)
    as (_ & H' & _).
  split; [split|].
  - apply H. reflexivity.
  - apply H2; reflexivity.
  - apply H'. reflexivity.
Defined.


(** ** Reading the stub partitions *)

Lemma lookup_collect (files m0 : Dir) (k : string) :
  lookup k (collect files m0)
  = match lastJson k files with
    | Some v => Some v
    | None => lookup k m0
    end.
Proof.
  revert m0. induction files as [|[f c] r IH]; intros m0; [reflexivity|].
  cbn [collect lastJson]. fold (categoryOf f).
  destruct (JS.endsWith ".json" f); cbn [andb]; rewrite IH;
    destruct (lastJson k r); try reflexivity.
  destruct (String.eqb_spec (categoryOf f) k) as [<-|Hne].
  - apply lookup_mapSet.
  - apply lookup_mapSet_other. congruence.
Qed.

Lemma keys_mapSet {V : Type} (k : string) (v : V) (m : list (string * V)) :
  NoDup (map fst m) ->
  NoDup (map fst (JS.mapSet k v m))
  /\ forall k', In k' (map fst (JS.mapSet k v m)) <-> k' = k \/ In k' (map fst m).
Proof.
  induction m as [|[k0 v0] r IH]; intros Hnd; cbn [JS.mapSet map fst].
  - split; [repeat constructor; intros [] | intros k'; simpl; intuition].
  - apply NoDup_cons_iff in Hnd as [Hnew Hnd]. cbn [fst] in Hnew.
    destruct (IH Hnd) as [IHn IHi].
    destruct (String.eqb_spec k k0) as [->|Hne]; cbn [map fst].
    + split; [now constructor | intros k'; simpl; intuition].
    + split.
      * constructor; [|exact IHn]. rewrite IHi. intros [H|H]; [congruence | tauto].
      * intros k'. simpl. rewrite IHi. intuition.
Qed.

Lemma keys_collect (files m0 : Dir) :
  NoDup (map fst m0) -> NoDup (map fst (collect files m0)).
Proof.
  revert m0. induction files as [|[f c] r IH]; intros m0 H; [exact H|].
  cbn [collect]. destruct (JS.endsWith ".json" f); apply IH; [|exact H].
  now apply keys_mapSet.
Qed.

Lemma mapSet_new {V : Type} (k : string) (v : V) (m : list (string * V)) :
  ~ In k (map fst m) -> JS.mapSet k v m = (m ++ [(k, v)])%list.
Proof.
  induction m as [|[k0 v0] r IH]; intros H; [reflexivity|].
  cbn [JS.mapSet]. cbn [map fst In] in H.
  destruct (String.eqb_spec k k0) as [->|Hne]; [tauto|].
  cbn [app]. f_equal. apply IH. tauto.
Qed.

Lemma partitionsOf_cons (f : string) (c : list CreatorDetails) (r : Dir) :
  partitionsOf ((f, c) :: r)
  = if JS.endsWith ".json" f then (categoryOf f, c) :: partitionsOf r
    else partitionsOf r.
Proof.
  unfold partitionsOf. cbn [filter]. unfold isJson at 1. cbn [fst].
  now destruct (JS.endsWith ".json" f).
Qed.

Lemma collect_distinct (files m0 : Dir) :
  NoDup (map fst (m0 ++ partitionsOf files)) ->
  collect files m0 = (m0 ++ partitionsOf files)%list.
Proof.
  revert m0. induction files as [|[f c] r IH]; intros m0 H.
  - unfold partitionsOf. cbn. now rewrite app_nil_r.
  - cbn [collect]. rewrite partitionsOf_cons in *. fold (categoryOf f).
    destruct (JS.endsWith ".json" f); [|now apply IH].
    assert (Hnew : ~ In (categoryOf f) (map fst m0)).
    { rewrite map_app in H. apply NoDup_remove_2 in H.
      intros Hin. apply H. apply in_or_app. now left. }
    rewrite (mapSet_new _ _ _ Hnew).
    rewrite IH; rewrite <- app_assoc; [reflexivity | exact H].
Qed.

(** X11: [readCreatorFiles] reads the files of [creators/] whose name ends
    in [.json], and only those, into a map without repeated keys, in which
    a category has the content of the last file that is read as this
    category.  When no two files are read as the same category, the map
    lists the partitions in the order of the directory listing. *)
Theorem X11_creator_map (w : World) (files : Dir) :
  dirs w "creators" = Some files ->
  exists creatorMap,
    readCreatorFiles w = (Ok creatorMap, w)
    /\ NoDup (map fst creatorMap)
    /\ (forall k, lookup k creatorMap = lastJson k files)
    /\ (NoDup (map fst (partitionsOf files)) ->
        creatorMap = partitionsOf files).
Proof.
  intros H. exists (collect files []).
  unfold readCreatorFiles. rewrite H. split; [reflexivity|].
  split; [apply keys_collect; constructor|]. split.
  - intros k. rewrite lookup_collect. now destruct (lastJson k files).
  - intros Hnd. now apply collect_distinct.
Qed.

(** The directory [oddNames]. *)
Lemma X11_creator_map_witness :
  fst (readCreatorFiles oddNames) = Ok [("a.json", [cyd]); ("b", [bob])]
  /\ fst (readCreatorFiles leftOver) = Ok [("artists", [ann; bob])].
Proof.
  destruct (X11_creator_map oddNames
              [("a.json.json", [ann]); ("notes.txt", [bob]);
               ("b.json", [bob]); (".jsona.json", [cyd])] eq_refl)
    as (m & Hm & _ & _ & _).
  destruct (X11_creator_map leftOver [("artists.json", [ann; bob])] eq_refl)
    as (m' & Hm' & _ & _ & Hd).
  split.
  - reflexivity.
  - rewrite Hm'. cbn [fst]. f_equal. apply Hd.
    repeat constructor. intros [].
Defined.


(** ** What a stage writes *)


(** The stage writes nothing outside [creators-details/]. *)
Lemma stage_frame (E : Engine) (w : World) :
  let w' := snd (scrapeAllCreatorDetails E w) in
  (forall d, d <> "creators-details" -> dirs w' d = dirs w d)
  /\ reportFile w' = reportFile w.
Proof.
  unfold scrapeAllCreatorDetails, withBrowser, tryCatch, readCreatorFiles.
  destruct (dirs w "creators") as [files|]; [|cbn; now split].
  unfold initializeBrowser, launchBrowser, openPage, bind, tick, ret, throw.
  cbn [fst snd ticks].
  destruct (launch E (ticks w)); [|cbn; now split].
  cbn [fst snd ticks record].
  destruct (newPage E (S (ticks w))); [|cbn; now split].
  unfold tryFinally, closeBrowser. cbn [fst snd ticks record].
  destruct (newPage E (S (S (ticks w)))); [|cbn; now split].
  match goal with
  | |- context [scrapePartitions E ?m ?w0] =>
      destruct (scrapePartitions_files E m w0) as (w' & Hrun & Hd & Hr & _)
  end.
  rewrite Hrun. cbn. split; [exact Hd | exact Hr].
Qed.

(** X12: each stage writes its own files only: the listing changes no
    directory but [creators/], the enrichment none but [creators-details/],
    and neither touches the report; the report stage changes no directory.
    The listing and the report stage open and close no session. *)
Theorem X12_stages_write_their_own_files (E : Engine) (w : World) (d : string) :
  let listing := snd (scrapeCreatorCount E w) in
  let enrichment := snd (scrapeAllCreatorDetails E w) in
  let report := snd (generateReadableReport E w) in
  otherDirs "creators" listing d = otherDirs "creators" w d
  /\ reportFile listing = reportFile w
  /\ sessions listing = sessions w
  /\ otherDirs "creators-details" enrichment d
     = otherDirs "creators-details" w d
  /\ reportFile enrichment = reportFile w
  /\ dirs report d = dirs w d
  /\ sessions report = sessions w.
Proof.
  intros listing enrichment report.
  destruct (scrapeCategories_run E categories 0 w registry_files_distinct)
    as (Hd & Hr & _).
  destruct (stage_frame E w) as (Hd' & Hr').
  split; [|split; [|split; [|split; [|split; [|split]]]]].
  - unfold otherDirs. destruct (String.eqb_spec d "creators"); [reflexivity|].
    now apply Hd.
  - exact Hr.
  - apply (quiet_scrapeCategories E categories 0 w).
  - unfold otherDirs.
    destruct (String.eqb_spec d "creators-details"); [reflexivity|].
    now apply Hd'.
  - exact Hr'.
  - unfold report, generateReadableReport, tryCatch.
    now destruct (dirs w "creators-details").
  - apply (quiet_generateReadableReport E w).
Qed.


(** ** Outcomes of a run *)








Lemma readFile_same_dirs (d f : string) (w w' : World) :
  dirs w' d = dirs w d -> readFile d f w' = readFile d f w.
Proof. unfold readFile. now intros ->. Qed.


(** The driver, with its guard written out. *)
Lemma main_eq (E : Engine) (w : World) :
  main E w
  = match initializeBrowser E w with
    | (Ok b, w0) =>
        let (r, w1) :=
          (openPage E ;;;
           totalCreators <- scrapeCreatorCount E ;;
           scrapeAllCreatorDetails E ;;;
           generateReadableReport E ;;;
           now <- tick ;;
           ret (mkResult totalCreators (clock E now))) w0 in
        (r, record (Close b) w1)
    | (Throw e, w0) => (Throw e, w0)
    end.
Proof.
  unfold main, withBrowser, tryCatch, tryFinally, closeBrowser.
  change (ret tt w) with (Ok tt, w). cbv iota beta.
  destruct (initializeBrowser E w) as [[b|e] w0]; [|reflexivity].
  match goal with
  | |- context [let (_, _) := ?body w0 in _] =>
      destruct (body w0) as [[r|e] w1]
  end; reflexivity.
Qed.




(** ** A browser that does not start *)

(** X14: when the browser cannot be launched, the run fails at once and has
    changed nothing.  When it is launched but its first page cannot be
    opened, [initializeBrowser] rejects before the driver holds the
    browser: the run fails with no file written, and the session that was
    launched is never closed. *)
Theorem X14_browser_does_not_start (E : Engine) (w : World) :
  (launch E (ticks w) = false ->
   initializeBrowser E w = (Throw EngineError, snd (tick w))
   /\ main E w = (Throw EngineError, snd (tick w)))
  /\ (launch E (ticks w) = true -> newPage E (S (ticks w)) = false ->
      fst (main E w) = Throw EngineError
      /\ sessions (snd (main E w)) = (sessions w ++ [Launch (launched w)])%list
      /\ dirs (snd (main E w)) = dirs w
      /\ reportFile (snd (main E w)) = reportFile w).
Proof.
  split.
  - intros H. assert (Hi : initializeBrowser E w
                           = (Throw EngineError, snd (tick w))).
    { unfold initializeBrowser, launchBrowser, bind, tick, throw.
      cbn [fst snd ticks]. now rewrite H. }
    split; [exact Hi|]. now rewrite main_eq, Hi.
  - intros H H'. rewrite main_eq.
    unfold initializeBrowser, launchBrowser, openPage, bind, tick, ret, throw.
    cbn [fst snd ticks]. rewrite H. cbn [fst snd ticks record]. rewrite H'.
    cbn. repeat split.
Qed.

(** The engines [noLaunch] and [noPage]. *)
Lemma X14_browser_witness :
  sessions (snd (main noLaunch emptyWorld)) = []
  /\ sessions (snd (main noPage emptyWorld)) = [Launch 0].
Proof.
  destruct (X14_browser_does_not_start noLaunch emptyWorld) as [H _].
  destruct (X14_browser_does_not_start noPage emptyWorld) as [_ H'].
  split.
  - destruct (H eq_refl) as [_ ->]. reflexivity.
  - destruct (H' eq_refl eq_refl) as (_ & -> & _). reflexivity.
Defined.

(** ** Saving a partition *)

Lemma keys_mapSet_present {V : Type} (k : string) (v : V)
      (m : list (string * V)) :
  In k (map fst m) -> map fst (JS.mapSet k v m) = map fst m.
Proof.
  induction m as [|[k0 v0] r IH]; intros H; [contradiction|].
  cbn [JS.mapSet]. destruct (String.eqb_spec k k0) as [->|Hne];
    [reflexivity|].
  cbn [map fst] in *. f_equal. apply IH. destruct H; [congruence | assumption].
Qed.

Lemma keys_mapSet_self {V : Type} (k : string) (v : V) (m : list (string * V)) :
  In k (map fst (JS.mapSet k v m)).
Proof.
  induction m as [|[k0 v0] r IH]; cbn [JS.mapSet]; [now left|].
  destruct (String.eqb_spec k k0) as [->|Hne]; cbn [map fst]; [now left|].
  right. exact IH.
Qed.

(** The names of the files of a directory, in listing order. *)
Lemma listing_after_save (label dir : string) (c c' : list CreatorDetails)
      (w : World) :
  option_map (map fst)
             (dirs (writeFile dir (fileName label) c'
                              (writeFile dir (fileName label) c w)) dir)
  = option_map (map fst) (dirs (writeFile dir (fileName label) c w) dir).
Proof.
  unfold writeFile. cbn [dirs]. rewrite !String.eqb_refl. cbn [option_map].
  f_equal. apply keys_mapSet_present, keys_mapSet_self.
Qed.

(** X15: for a label that is a file name and the directories of the
    partition store, after a [saveCreatorsByCategory] that returns the file
    of the category's slug holds exactly the records saved, every other file
    of the store reads as before and the report is untouched.  Saving the
    category again replaces the records without adding a file to the
    directory. *)
Theorem X15_save_then_read
        (label dir d f : string) (c c' : list CreatorDetails) (w : World) :
  plainLabel label = true ->
  In dir storeDirs -> In d storeDirs -> occurs "/" f = false ->
  fst (saveCreatorsByCategory label dir c w) = Ok tt ->
  let w1 := snd (saveCreatorsByCategory label dir c w) in
  let w2 := snd (saveCreatorsByCategory label dir c' w1) in
  readFile dir (fileName label) w1 = Some c
  /\ (d <> dir \/ f <> fileName label -> readFile d f w1 = readFile d f w)
  /\ reportFile w1 = reportFile w
  /\ (fst (saveCreatorsByCategory label dir c' w1) = Ok tt ->
      readFile dir (fileName label) w2 = Some c'
      /\ option_map (map fst) (dirs w2 dir)
         = option_map (map fst) (dirs w1 dir)).
Proof.
  intros _ _ _ _ _ w1 w2. unfold w2, w1, saveCreatorsByCategory. cbn [fst snd].
  split; [apply readFile_writeFile|].
  split; [|split; [reflexivity|intros _; split]].
  - intros [Hd | Hf].
    + apply readFile_same_dirs. now apply dirs_writeFile_other.
    + destruct (String.eqb_spec d dir) as [->|Hd].
      * now apply readFile_writeFile_other.
      * apply readFile_same_dirs. now apply dirs_writeFile_other.
  - apply readFile_writeFile.
  - apply listing_after_save.
Qed.

(** Saving Ann under "Data Analysis" next to the left-over partition. *)
Lemma X15_save_witness :
  readFile "creators" "artists.json"
           (snd (saveCreatorsByCategory "Data Analysis" "creators" [ann]
                                        leftOver))
  = Some [ann; bob].
Proof.
  destruct (X15_save_then_read "Data Analysis" "creators" "creators"
              "artists.json" [ann] [] leftOver) as (_ & H & _).
  - reflexivity.
  - now left.
  - now left.
  - reflexivity.
  - reflexivity.
  - rewrite H; [reflexivity|]. right. discriminate.
Defined.

(** ** No record is left out of the report *)

Lemma occursIn_trans (a b text : string) :
  occursIn a b -> occursIn b text -> occursIn a text.
Proof.
  intros (x & y & ->) Hb. rewrite <- (append_nil_r (x ++ a ++ y)) in Hb.
  destruct Hb as (x' & y' & ->).
  exists (x' ++ x), (y ++ "" ++ y'). now rewrite !append_assoc.
Qed.

Lemma blocks_In (c : CreatorDetails) (l : list CreatorDetails) :
  In c l -> occursIn (Report.block c) (blocks l).
Proof.
  induction l as [|c' r IH]; intros Hin; [contradiction|].
  destruct Hin as [-> | Hin]; cbn [blocks].
  - exists "", (blocks r). reflexivity.
  - apply occursIn_after, IH, Hin.
Qed.

(** X16: the report leaves no record out: for every file of
    [creators-details/] whose name ends in [.json], the header of its
    category and the block of each of its records occur in the text that the
    report stage writes. *)
Theorem X16_every_record_is_reported
        (E : Engine) (w : World) (files : Dir) (file : string)
        (content : list CreatorDetails) (c : CreatorDetails) :
  dirs w "creators-details" = Some files ->
  lookup file files = Some content ->
  JS.endsWith ".json" file = true ->
  In c content ->
  exists text,
    reportFile (snd (generateReadableReport E w)) = Some text
    /\ occursIn (Report.header (mkFormatted (Report.title file) content)) text
    /\ occursIn (Report.block c) text.
Proof.
  intros Hd Hl Hj Hc.
  rewrite (generateReadableReport_eq E w files Hd). cbn [snd writeReport
    reportFile].
  eexists. split; [reflexivity|].
  pose proof (report_includes (clock E (ticks w)) files file content Hl Hj)
    as Hsec.
  split.
  - eapply occursIn_trans; [|exact Hsec].
    exists "", (blocks (Report.sortedCreators content)). reflexivity.
  - eapply occursIn_trans; [|exact Hsec].
    apply occursIn_after, blocks_In.
    apply (Permutation_in c (Permutation_sym
             (sort_perm Report.byMarketCapDesc content))), Hc.
Qed.

(** The detail partition of [mixedDetails]. *)
Lemma X16_record_witness :
  exists text,
    reportFile (snd (generateReadableReport quietEngine mixedDetails))
    = Some text
    /\ occursIn (Report.block (enrich ann emptyPage)) text.
Proof.
  destruct (X16_every_record_is_reported quietEngine mixedDetails
              [("notes.txt", [bob]); ("artists.json", [enrich ann emptyPage])]
              "artists.json" [enrich ann emptyPage] (enrich ann emptyPage)
              eq_refl eq_refl eq_refl (or_introl eq_refl))
    as (text & Ht & _ & Hb).
  exists text. split; [exact Ht | exact Hb].
Defined.
